(** * Git Helper: the command runner, the step catalog and the walkthrough controller

    A shallow embedding of [gitCommands.ts] (runGitCommand), [steps.ts]
    (WALKTHROUGH_STEPS) and the message handling of [walkthroughProvider.ts]
    (WalkthroughProvider._handleMessage and the two senders), the quick
    actions of [extension.ts] and the script that runs inside the webview,
    followed by the properties of the specification that concern them and by
    further properties read off the code.

    JavaScript strings are sequences of UTF-16 code units; arrays are mutable
    objects living in a store and are passed around by reference; calls into
    the host (VS Code, Node) are events of a small free monad, split into the
    synchronous ones and the two on which the code suspends ([await
    showInputBox], the [execFile] callback). *)

From Stdlib Require Import String Ascii NArith ZArith Lia.
From stdpp Require Import list.

Set Default Goal Selector "!".

(** ** JavaScript strings *)

Module JS.

(** A string is its sequence of UTF-16 code units. *)
Abbreviation str := (list N).

(** Source literals are written as Rocq strings, whose bytes are the UTF-8
    encoding of the text; [lit] decodes them (one to three bytes per code
    point, which covers every literal of the sources). *)
Fixpoint decode (bs : list N) : str :=
  match bs with
  | [] => []
  | b :: rest =>
      if (b <? 128)%N then b :: decode rest
      else if (b <? 224)%N then
        match rest with
        | c :: rest' => ((b mod 32) * 64 + c mod 64)%N :: decode rest'
        | [] => [b]
        end
      else
        match rest with
        | c :: d :: rest' =>
            ((b mod 16) * 4096 + (c mod 64) * 64 + d mod 64)%N :: decode rest'
        | _ => b :: rest
        end
  end.

Definition lit (s : string) : str :=
  decode (map N_of_ascii (list_ascii_of_string s)).

(** The double quote, U+0022. *)
Definition dquote : str := [34%N].

(** The line feed, U+000A (the escape \n of the sources). *)
Definition newline : str := [10%N].

Fixpoint eqb (a b : str) : bool :=
  match a, b with
  | [], [] => true
  | x :: a', y :: b' => (x =? y)%N && eqb a' b'
  | _, _ => false
  end.

(** WhiteSpace and LineTerminator of ECMAScript, the code points that
    String.prototype.trim strips; all of them are single code units. *)
Definition isWhiteSpace (c : N) : bool :=
  ((c =? 0x09) || (c =? 0x0A) || (c =? 0x0B) || (c =? 0x0C) || (c =? 0x0D)
   || (c =? 0x20) || (c =? 0xA0) || (c =? 0x1680)
   || ((0x2000 <=? c) && (c <=? 0x200A))
   || (c =? 0x2028) || (c =? 0x2029) || (c =? 0x202F) || (c =? 0x205F)
   || (c =? 0x3000) || (c =? 0xFEFF))%N.

Fixpoint trimStart (s : str) : str :=
  match s with
  | c :: s' => if isWhiteSpace c then trimStart s' else s
  | [] => []
  end.

Definition trimEnd (s : str) : str := reverse (trimStart (reverse s)).

(** String.prototype.trim *)
Definition trim (s : str) : str := trimEnd (trimStart s).

(** [s.includes(" ")]: the one-unit needle U+0020 occurs in [s]. *)
Definition includes_space (s : str) : bool := existsb (N.eqb 32) s.

(** Array.prototype.join *)
Fixpoint join (sep : str) (xs : list str) : str :=
  match xs with
  | [] => []
  | [x] => x
  | x :: rest => x ++ sep ++ join sep rest
  end.

(** [a || b] on strings: the empty string is the only falsy one. *)
Definition or_else (a b : str) : str :=
  match a with
  | [] => b
  | _ :: _ => a
  end.

End JS.

Arguments JS.lit s%_string.
Abbreviation js := JS.lit.

(** ** The store of arrays *)

(** A [string[]] is a reference into the store; two variables holding the
    same reference see each other's [push]. *)
Abbreviation loc := nat.
Abbreviation Arrays := (list (list JS.str)).

(** ** steps.ts *)

Record InputRequest := {
  prompt : JS.str;
  placeholder : JS.str
}.

Record WalkthroughStep := {
  id : JS.str;
  title : JS.str;
  description : JS.str;
  command : JS.str;
  args : loc;
  requiresInput : option InputRequest;
  notes : option JS.str
}.

(** A step as the array literal of the source writes it: [args] is still an
    array literal, not yet an object of the store. *)
Record StepLiteral := {
  lit_id : JS.str;
  lit_title : JS.str;
  lit_description : JS.str;
  lit_command : JS.str;
  lit_args : list JS.str;
  lit_requiresInput : option InputRequest;
  lit_notes : option JS.str
}.

Definition steps_source : list StepLiteral := [
  {| lit_id := js "check-git";
     lit_title := js "1. Check Git is Installed";
     lit_description :=
       js "Before we start, let's make sure Git is installed on your computer. " ++
       js "This command prints the Git version number. If you see a version, you're good to go!";
     lit_command := js "git --version";
     lit_args := [js "--version"];
     lit_requiresInput := None;
     lit_notes := None |};
  {| lit_id := js "init-repo";
     lit_title := js "2. Initialize a Repository";
     lit_description :=
       js "This creates a new Git repository in your current folder. " ++
       js "It adds a hidden .git folder that Git uses to track all your changes. " ++
       js "You only need to do this once per project.";
     lit_command := js "git init";
     lit_args := [js "init"];
     lit_requiresInput := None;
     lit_notes := Some
       (js "If your folder is already a Git repo, this is safe to run again — it won't overwrite anything.") |};
  {| lit_id := js "check-status";
     lit_title := js "3. Check Status";
     lit_description :=
       js "This shows the current state of your repository: which files are new, " ++
       js "which are modified, and which are staged (ready to commit). " ++
       js "Get in the habit of running this often!";
     lit_command := js "git status";
     lit_args := [js "status"];
     lit_requiresInput := None;
     lit_notes := None |};
  {| lit_id := js "make-changes";
     lit_title := js "4. Make a File Change";
     lit_description :=
       js "Before we can stage and commit, we need something to commit! " ++
       js "Go create or edit a file in your project folder — for example, " ++
       js "create a file called 'hello.txt' with some text in it. " ++
       js "When you're ready, click 'Run Step' to check the status and see your changes listed.";
     lit_command := js "git status";
     lit_args := [js "status"];
     lit_requiresInput := None;
     lit_notes := Some
       (js "This step runs 'git status' so you can see your new/changed files appear in the output.") |};
  {| lit_id := js "stage-files";
     lit_title := js "5. Stage Your Files";
     lit_description :=
       js "Staging tells Git which changes you want to include in your next commit. " ++
       js "Think of it like putting files into a box before sealing it. " ++
       js "The dot (.) means 'stage everything in the current folder'.";
     lit_command := js "git add .";
     lit_args := [js "add"; js "."];
     lit_requiresInput := None;
     lit_notes := Some (js "You can also stage specific files with 'git add filename.txt'.") |};
  {| lit_id := js "commit";
     lit_title := js "6. Commit Your Changes";
     lit_description :=
       js "A commit is a saved snapshot of your staged changes. " ++
       js "Each commit needs a message describing what you changed. " ++
       js "Good commit messages are short but descriptive, like 'Add homepage layout'.";
     lit_command := js "git commit -m " ++ JS.dquote ++ js "your message" ++ JS.dquote;
     lit_args := [js "commit"; js "-m"];
     lit_requiresInput := Some
       {| prompt := js "Enter your commit message";
          placeholder := js "e.g., Add initial project files" |};
     lit_notes := None |};
  {| lit_id := js "add-remote";
     lit_title := js "7. Add a Remote (GitHub)";
     lit_description :=
       js "A 'remote' is a copy of your repo stored online (like on GitHub). " ++
       js "This command links your local repo to a GitHub repository. " ++
       js "First, create a new repo on github.com, then paste the URL here.";
     lit_command := js "git remote add origin <url>";
     lit_args := [js "remote"; js "add"; js "origin"];
     lit_requiresInput := Some
       {| prompt := js "Enter your GitHub repository URL";
          placeholder := js "https://github.com/username/my-repo.git" |};
     lit_notes := Some
       (js "Find the URL on your GitHub repo page — click the green 'Code' button and copy the HTTPS link.") |};
  {| lit_id := js "push";
     lit_title := js "8. Push to GitHub";
     lit_description :=
       js "Push uploads your commits to the remote repository (GitHub). " ++
       js "The '-u' flag sets 'origin main' as the default, so next time " ++
       js "you can just type 'git push' without the extra arguments.";
     lit_command := js "git push -u origin main";
     lit_args := [js "push"; js "-u"; js "origin"; js "main"];
     lit_requiresInput := None;
     lit_notes := Some
       (js "If your default branch is called 'master' instead of 'main', " ++
        js "change 'main' to 'master'. Newer Git versions use 'main' by default.") |};
  {| lit_id := js "pull";
     lit_title := js "9. Pull from GitHub";
     lit_description :=
       js "Pull downloads the latest changes from the remote repository " ++
       js "and merges them into your local branch. This is how you stay " ++
       js "up to date with changes made by teammates (or yourself on another computer).";
     lit_command := js "git pull";
     lit_args := [js "pull"];
     lit_requiresInput := None;
     lit_notes := Some (js "Always pull before you start working to avoid merge conflicts!") |}
].

(** Evaluating the module allocates one array per [args] literal, in source
    order, and builds the step objects around the references. *)
Fixpoint load (store : Arrays) (ls : list StepLiteral) : Arrays * list WalkthroughStep :=
  match ls with
  | [] => (store, [])
  | l :: rest =>
      let step :=
        {| id := lit_id l; title := lit_title l; description := lit_description l;
           command := lit_command l; args := length store;
           requiresInput := lit_requiresInput l; notes := lit_notes l |} in
      let '(store', steps) := load (store ++ [lit_args l]) rest in
      (store', step :: steps)
  end.

Definition initial_arrays : Arrays := Eval vm_compute in fst (load [] steps_source).
Definition WALKTHROUGH_STEPS : list WalkthroughStep :=
  Eval vm_compute in snd (load [] steps_source).

(** [WALKTHROUGH_STEPS.find((s) => s.id === stepId)] *)
Definition find_step (stepId : JS.str) : option WalkthroughStep :=
  List.find (fun s => JS.eqb (id s) stepId) WALKTHROUGH_STEPS.

(** The argument template of a step: what its [args] array held when the
    module was loaded. *)
Definition template (s : WalkthroughStep) : list JS.str :=
  default [] (initial_arrays !! args s).

(** ** The host *)

(** A webview view handed to [resolveWebviewView], by identity. *)
Definition view := nat.

(** The message a webview posts to the extension. *)
Record Message := {
  type : JS.str;
  stepId : JS.str
}.

(** The messages the extension posts to the webview. *)
Inductive Outbound :=
| StatusMessage (step_id status : JS.str)
| ResultMessage (step_id : JS.str) (result_success : bool) (result_output : JS.str).

(** How the child process ended, and what [execFile] kept of its streams.
    The source passes no [maxBuffer], so a stream that grows past Node's
    default (1 MiB) makes [execFile] kill the child and report an error,
    also when the child had already ended with status 0. *)
Inductive ProcessOutcome :=
| Exited (status : Z) (out err : JS.str)              (* ran to its end *)
| Signalled (out err : JS.str)                        (* ended by a signal *)
| Overflowed (status : option Z) (out err : JS.str)   (* a stream passed maxBuffer;
                                                         the exit status, if it had one *)
| NotStarted.                                         (* could not be spawned *)

(** What the callback of [execFile] receives: [error] is null or an Error
    with a message. *)
Record ExecReply := {
  error : option JS.str;
  stdout : JS.str;
  stderr : JS.str
}.

(** Everything the host can be seen to be asked, in the order of the calls.
    [EExecFile] is the call of [execFile]: the process is spawned unless Node
    refuses the call (see [rejects]). *)
Inductive Effect :=
| EAppendLine (text : JS.str)
| EShow
| EShowErrorMessage (text : JS.str)
| EPostMessage (v : view) (m : Outbound)
| EShowInputBox (prompt_text placeholder_text : JS.str)
| EExecFile (file : JS.str) (arguments : list JS.str) (cwd : JS.str).

Record World := {
  arrays : Arrays;                          (* the store *)
  _view : option view;                      (* WalkthroughProvider._view *)
  handlers : list view;                     (* webviews with a message listener *)
  workspaceFolders : option (list JS.str);  (* fsPath of each workspace folder *)
  effects : list Effect
}.

Definition emit_all (es : list Effect) (w : World) : World :=
  {| arrays := arrays w; _view := _view w; handlers := handlers w;
     workspaceFolders := workspaceFolders w; effects := effects w ++ es |}.

Definition emit (e : Effect) (w : World) : World := emit_all [e] w.

Definition with_arrays (a : Arrays) (w : World) : World :=
  {| arrays := a; _view := _view w; handlers := handlers w;
     workspaceFolders := workspaceFolders w; effects := effects w |}.

(** ** Programs *)

(** Calls that return at once. *)
Inductive Call : Type -> Type :=
| ArraySpread (a : loc) : Call loc                       (* [...a] *)
| ArrayPush (a : loc) (s : JS.str) : Call unit           (* a.push(s) *)
| ArrayRead (a : loc) : Call (list JS.str)               (* the elements of a *)
| GetView : Call (option view)                           (* this._view *)
| SetView (v : view) : Call unit                         (* this._view = v *)
| OnDidReceiveMessage (v : view) : Call unit
| GetWorkspaceFolders : Call (option (list JS.str))
| AppendLine (text : JS.str) : Call unit
| Show : Call unit
| ShowErrorMessage (text : JS.str) : Call unit
| PostMessage (v : view) (m : Outbound) : Call unit.

(** Calls whose answer arrives later: the code is suspended until then. *)
Inductive Await : Type -> Type :=
| ShowInputBox (prompt_text placeholder_text : JS.str) : Await (option JS.str)
| ExecFile (file : JS.str) (arguments : list JS.str) (cwd : JS.str) : Await ExecReply.

Inductive Prog (A : Type) : Type :=
| Ret (a : A)
| Do {X : Type} (c : Call X) (k : X -> Prog A)
| Wait {X : Type} (a : Await X) (k : X -> Prog A).

Arguments Ret {A} a.
Arguments Do {A X} c k.
Arguments Wait {A X} a k.

Fixpoint bind {A B : Type} (m : Prog A) (f : A -> Prog B) : Prog B :=
  match m with
  | Ret a => f a
  | Do c k => Do c (fun x => bind (k x) f)
  | Wait a k => Wait a (fun x => bind (k x) f)
  end.

Definition call {X : Type} (c : Call X) : Prog X := Do c Ret.
Definition await {X : Type} (a : Await X) : Prog X := Wait a Ret.

Declare Scope prog_scope.
Delimit Scope prog_scope with prog.
Bind Scope prog_scope with Prog.
Notation "'let*' x ':=' m 'in' k" := (bind m (fun x => k))
  (at level 10, x name, m at level 100, k at level 200) : prog_scope.
Notation "m ;; k" := (bind m (fun _ => k))
  (at level 100, k at level 200, right associativity) : prog_scope.
Open Scope prog_scope.

(** The effect of a synchronous call on the world, and its return value. *)
Definition perform {X : Type} (c : Call X) (w : World) : X * World :=
  match c in Call X return X * World with
  | ArraySpread a =>
      (length (arrays w), with_arrays (arrays w ++ [default [] (arrays w !! a)]) w)
  | ArrayPush a s => (tt, with_arrays (alter (fun xs => xs ++ [s]) a (arrays w)) w)
  | ArrayRead a => (default [] (arrays w !! a), w)
  | GetView => (_view w, w)
  | SetView v =>
      (tt, {| arrays := arrays w; _view := Some v; handlers := handlers w;
              workspaceFolders := workspaceFolders w; effects := effects w |})
  | OnDidReceiveMessage v =>
      (tt, {| arrays := arrays w; _view := _view w; handlers := v :: handlers w;
              workspaceFolders := workspaceFolders w; effects := effects w |})
  | GetWorkspaceFolders => (workspaceFolders w, w)
  | AppendLine text => (tt, emit (EAppendLine text) w)
  | Show => (tt, emit EShow w)
  | ShowErrorMessage text => (tt, emit (EShowErrorMessage text) w)
  | PostMessage v m => (tt, emit (EPostMessage v m) w)
  end.

(** What the host is seen to be asked when the code suspends. *)
Definition request {X : Type} (a : Await X) : Effect :=
  match a with
  | ShowInputBox p ph => EShowInputBox p ph
  | ExecFile file arguments cwd => EExecFile file arguments cwd
  end.

(** Node validates a call of [execFile] before it spawns anything: a file,
    an argument or a working directory that holds U+0000 makes the call
    throw.  Nothing in the sources catches an exception, so the function
    that made the call, and every function awaiting it, ends there. *)
Definition has_nul (s : JS.str) : bool := existsb (N.eqb 0) s.

Definition rejects {X : Type} (a : Await X) : bool :=
  match a with
  | ShowInputBox _ _ => false
  | ExecFile file arguments cwd =>
      has_nul file || existsb has_nul arguments || has_nul cwd
  end.

(** ** gitCommands.ts *)

Record GitCommandResult := {
  success : bool;
  output : JS.str
}.

Definition no_folder_message : JS.str :=
  js "No folder is open in VS Code. Please open a folder first " ++
  js "(File > Open Folder).".

(** [a.includes(" ") ? `"${a}"` : a] *)
Definition quote_for_display (a : JS.str) : JS.str :=
  if JS.includes_space a then JS.dquote ++ a ++ JS.dquote else a.

Definition displayCmd (arguments : list JS.str) : JS.str :=
  js "git " ++ JS.join (js " ") (map quote_for_display arguments).

(** The body of the [execFile] callback.  [resolve] only schedules the
    continuation of the caller's [await]: the caller resumes after the
    callback has returned, hence after the blank line is appended. *)
Definition on_exit (reply : ExecReply) : Prog GitCommandResult :=
  let output := JS.trim (stdout reply ++ stderr reply) in
  match error reply with
  | Some message =>
      call (AppendLine (js "ERROR:" ++ JS.newline ++ JS.or_else output message));;
      call Show;;
      call (AppendLine (js ""));;
      Ret {| success := false; output := JS.or_else output message |}
  | None =>
      call (AppendLine (JS.or_else output (js "(no output)")));;
      call Show;;
      call (AppendLine (js ""));;
      Ret {| success := true; output := JS.or_else output (js "(no output)") |}
  end.

(** [execFile] sits in the executor of the promise, with no try around it:
    when it throws (see [rejects]) the promise is rejected after the three
    lines of the announcement, and no result is ever resolved. *)
Definition runGitCommand (args : loc) : Prog GitCommandResult :=
  let* folders := call GetWorkspaceFolders in
  match folders with
  | None | Some [] =>
      let errorMsg := no_folder_message in
      call (AppendLine (js "ERROR: " ++ errorMsg));;
      call Show;;
      call (ShowErrorMessage errorMsg);;
      Ret {| success := false; output := errorMsg |}
  | Some (cwd :: _) =>
      let* shown := call (ArrayRead args) in
      call (AppendLine (js "> " ++ displayCmd shown));;
      call (AppendLine (js "  (in: " ++ cwd ++ js ")"));;
      call (AppendLine (js "---"));;
      let* passed := call (ArrayRead args) in
      let* reply := await (ExecFile (js "git") passed cwd) in
      on_exit reply
  end.

(** ** walkthroughProvider.ts *)

Definition cancelled_message : JS.str := js "Cancelled — no input provided.".

(** [this._view?.webview.postMessage(...)] *)
Definition post (m : Outbound) : Prog unit :=
  let* current := call GetView in
  match current with
  | Some v => call (PostMessage v m)
  | None => Ret tt
  end.

Definition _sendStatusToWebview (stepId status : JS.str) : Prog unit :=
  post (StatusMessage stepId status).

Definition _sendResultToWebview (stepId : JS.str) (result : GitCommandResult) : Prog unit :=
  post (ResultMessage stepId (success result) (output result)).

(** From the status notification on: the part of [_handleMessage] that every
    run which is not cancelled goes through. *)
Definition run_step (step : WalkthroughStep) (args : loc) : Prog unit :=
  _sendStatusToWebview (id step) (js "running");;
  let* result := runGitCommand args in
  _sendResultToWebview (id step) result.

Definition _handleMessage (message : Message) : Prog unit :=
  if negb (JS.eqb (type message) (js "runStep")) then Ret tt
  else
    match find_step (stepId message) with
    | None => Ret tt
    | Some step =>
        let* args := call (ArraySpread (args step)) in
        match requiresInput step with
        | Some request =>
            let* userInput := await (ShowInputBox (prompt request) (placeholder request)) in
            match userInput with
            | None =>
                _sendResultToWebview (id step)
                  {| success := false; output := cancelled_message |}
            | Some text =>
                if JS.eqb (JS.trim text) (js "") then
                  _sendResultToWebview (id step)
                    {| success := false; output := cancelled_message |}
                else
                  call (ArrayPush args text);;
                  run_step step args
            end
        | None => run_step step args
        end
    end.

(** [resolveWebviewView], without the rendering of the HTML (which reads the
    catalog and writes nothing but the webview's [html]). *)
Definition resolveWebviewView (webviewView : view) : Prog unit :=
  call (SetView webviewView);;
  call (OnDidReceiveMessage webviewView).

(** ** Running one invocation to its end *)

(** What the host answers to the two suspended calls of one invocation. *)
Record Answers := {
  typed : option JS.str;        (* the input box: the text, or None on Escape *)
  process : ProcessOutcome;     (* how git ends *)
  failure : JS.str              (* error.message, should execFile report an error *)
}.

(** What Node's [execFile] hands to the callback: a null error only when the
    child ran to its end with status 0 and no stream overflowed; the streams
    are empty when the child never ran.  [failure] is the message of the
    Error otherwise. *)
Definition execFile_reply (failure : JS.str) (p : ProcessOutcome) : ExecReply :=
  match p with
  | Exited status out err =>
      {| error := if (status =? 0)%Z then None else Some failure;
         stdout := out; stderr := err |}
  | Signalled out err => {| error := Some failure; stdout := out; stderr := err |}
  | Overflowed _ out err => {| error := Some failure; stdout := out; stderr := err |}
  | NotStarted => {| error := Some failure; stdout := js ""; stderr := js "" |}
  end.

Definition answer {X : Type} (h : Answers) (a : Await X) : X :=
  match a in Await X return X with
  | ShowInputBox _ _ => typed h
  | ExecFile _ _ _ => execFile_reply (failure h) (process h)
  end.

(** The invocation run to its end, every suspended call answered by [h]:
    its value, or [None] when a call threw and the invocation ended there
    (its promise rejected, unhandled).  An invocation whose call is never
    answered stays suspended: see [advance]. *)
Fixpoint run {A : Type} (h : Answers) (p : Prog A) (w : World) : option A * World :=
  match p with
  | Ret a => (Some a, w)
  | Do c k => let '(x, w') := perform c w in run h (k x) w'
  | Wait a k =>
      if rejects a then (None, emit (request a) w)
      else run h (k (answer h a)) (emit (request a) w)
  end.

(** ** The event loop *)

(** An invocation suspended on a host call, with what it does next. *)
Inductive Task :=
| Suspended {X : Type} (a : Await X) (k : X -> Prog unit).

(** Run the code up to its next suspension, or to its end; a call that
    throws ends it. *)
Fixpoint advance (p : Prog unit) (w : World) : World * option Task :=
  match p with
  | Ret _ => (w, None)
  | Do c k => let '(x, w') := perform c w in advance (k x) w'
  | Wait a k =>
      if rejects a then (emit (request a) w, None)
      else (emit (request a) w, Some (Suspended a k))
  end.

Inductive Response :=
| Typed (text : option JS.str)
| Ended (failure_message : JS.str) (p : ProcessOutcome).

Definition resume (t : Task) (r : Response) : option (Prog unit) :=
  match t with
  | Suspended a k =>
      match a in Await X return (X -> Prog unit) -> option (Prog unit) with
      | ShowInputBox _ _ => fun k =>
          match r with Typed text => Some (k text) | Ended _ _ => None end
      | ExecFile _ _ _ => fun k =>
          match r with Ended m p => Some (k (execFile_reply m p)) | Typed _ => None end
      end k
  end.

Inductive HostAction :=
| Resolve (v : view)                       (* the host opens the panel *)
| Receive (v : view) (m : Message)         (* the webview of v posts m *)
| Respond (i : nat) (r : Response)         (* the i-th suspended call completes *)
| SetFolders (f : option (list JS.str)).   (* the workspace changes *)

Record Loop := {
  world : World;
  pending : list Task
}.

Definition start (p : Prog unit) (rest : list Task) (w : World) : Loop :=
  let '(w', t) := advance p w in
  {| world := w'; pending := rest ++ option_list t |}.

Definition host_step (s : Loop) (a : HostAction) : Loop :=
  match a with
  | Resolve v => start (resolveWebviewView v) (pending s) (world s)
  | Receive v m =>
      if existsb (Nat.eqb v) (handlers (world s))
      then start (_handleMessage m) (pending s) (world s)
      else s
  | Respond i r =>
      match pending s !! i with
      | Some t =>
          match resume t r with
          | Some p => start p (delete i (pending s)) (world s)
          | None => s
          end
      | None => s
      end
  | SetFolders f =>
      {| world :=
           {| arrays := arrays (world s); _view := _view (world s);
              handlers := handlers (world s); workspaceFolders := f;
              effects := effects (world s) |};
         pending := pending s |}
  end.

(** [activate]: the module of the catalog is loaded, the output channel is
    created and greeted, the provider is constructed without a view. *)
Definition activate (folders : option (list JS.str)) : Loop :=
  {| world :=
       {| arrays := initial_arrays; _view := None; handlers := [];
          workspaceFolders := folders;
          effects := [EAppendLine (js "Git Helper extension activated!");
                      EAppendLine (js "================================" ++ JS.newline)] |};
     pending := [] |}.

Definition host_run (s : Loop) (actions : list HostAction) : Loop :=
  fold_left host_step actions s.


(** ** Observations *)

(** The lines the runner writes before it spawns git. *)
Definition announcement (arguments : list JS.str) (cwd : JS.str) : list Effect :=
  [EAppendLine (js "> " ++ displayCmd arguments);
   EAppendLine (js "  (in: " ++ cwd ++ js ")");
   EAppendLine (js "---")].

(** Kinds of effects, to count them in a trace. *)
Definition is_spawn (e : Effect) : bool :=
  match e with EExecFile _ _ _ => true | _ => false end.

Definition is_log (e : Effect) : bool :=
  match e with EAppendLine _ | EShow => true | _ => false end.

Definition is_prompt (e : Effect) : bool :=
  match e with EShowInputBox _ _ => true | _ => false end.

Definition posted (es : list Effect) : list (view * Outbound) :=
  omap (fun e => match e with EPostMessage v m => Some (v, m) | _ => None end) es.

Definition exit_status (p : ProcessOutcome) : option Z :=
  match p with
  | Exited status _ _ => Some status
  | Overflowed status _ _ => status
  | Signalled _ _ | NotStarted => None
  end.

(** [execFile] takes the call of the runner on these arguments in this
    working directory: none of them holds U+0000. *)
Definition accepted (arguments : list JS.str) (cwd : JS.str) : Prop :=
  rejects (ExecFile (js "git") arguments cwd) = false.

(** The arguments the handler hands to the runner for a step: those of the
    step and, if it asks for input, the text that was typed. *)
Definition handed (h : Answers) (st : WalkthroughStep) (w : World) : list JS.str :=
  default [] (arrays w !! args st) ++
  match requiresInput st, typed h with
  | Some _, Some text => [text]
  | _, _ => []
  end.

Definition log_lines (es : list Effect) : list JS.str :=
  omap (fun e => match e with EAppendLine text => Some text | _ => None end) es.

(** The log block in the words of the specification: the command line, the
    working directory, the captured output and a blank line, in this order,
    whatever else is logged around them. *)
Definition block_as_specified (lines : list JS.str) : Prop :=
  exists command_line directory text,
    [command_line; directory; text; js ""] `sublist_of` lines.

(** Quoting in the words of the specification: an argument is quoted when it
    contains whitespace. *)
Definition quote_as_specified (a : JS.str) : JS.str :=
  if existsb JS.isWhiteSpace a then JS.dquote ++ a ++ JS.dquote else a.


(** ** Private arrays *)

(** A call is allowed when it pushes onto no array below [n] and registers
    no listener. *)
Definition allowed (n : nat) {X : Type} (c : Call X) : Prop :=
  match c with
  | ArrayPush a _ => n <= a
  | OnDidReceiveMessage _ => False
  | _ => True
  end.

(** What a call may return, as far as the store is concerned: a spread
    returns a reference that is not below [n]. *)
Definition fresh_reply (n : nat) {X : Type} (c : Call X) : X -> Prop :=
  match c in Call X return X -> Prop with
  | ArraySpread _ => fun l => n <= l
  | _ => fun _ => True
  end.

(** A program all of whose calls are allowed, on every path. *)
Inductive confined (n : nat) {A : Type} : Prog A -> Prop :=
| confined_Ret (a : A) : confined n (Ret a)
| confined_Do {X : Type} (c : Call X) (k : X -> Prog A) :
    allowed n c ->
    (forall x, fresh_reply n c x -> confined n (k x)) ->
    confined n (Do c k)
| confined_Wait {X : Type} (a : Await X) (k : X -> Prog A) :
    (forall x, confined n (k x)) ->
    confined n (Wait a k).

Definition confined_task (n : nat) (t : Task) : Prop :=
  match t with
  | Suspended _ k => forall x, confined n (k x)
  end.

(** The invariant of the event loop: the arrays of the catalog are as the
    module left them, the provider has a view as soon as some webview has a
    listener, and every suspended invocation is confined to its own arrays. *)
Record loop_invariant (s : Loop) : Prop := {
  catalog_intact : take (length initial_arrays) (arrays (world s)) = initial_arrays;
  view_attached : handlers (world s) <> [] -> is_Some (_view (world s));
  tasks_confined : Forall (confined_task (length initial_arrays)) (pending s)
}.

(** ** Sample inputs *)

Definition sample_world : World :=
  {| arrays := initial_arrays; _view := Some 0; handlers := [0];
     workspaceFolders := Some [js "/home/u/project"]; effects := [] |}.

Definition sample_world_no_folder : World :=
  {| arrays := initial_arrays; _view := Some 0; handlers := [0];
     workspaceFolders := None; effects := [] |}.

Definition sample_world_two_folders : World :=
  {| arrays := initial_arrays; _view := Some 0; handlers := [0];
     workspaceFolders := Some [js "/home/u/project"; js "/home/u/library"];
     effects := [] |}.

(** The first MiB of a longer output, as [execFile] keeps it. *)
Definition kept_output : JS.str := repeat 97%N (N.to_nat 1048576).

Definition commit_request : InputRequest :=
  {| prompt := js "Enter your commit message";
     placeholder := js "e.g., Add initial project files" |}.

(** The sixth step of the catalog. *)
Definition commit_step : WalkthroughStep :=
  {| id := js "commit"; title := js "6. Commit Your Changes";
     description :=
       js "A commit is a saved snapshot of your staged changes. " ++
       js "Each commit needs a message describing what you changed. " ++
       js "Good commit messages are short but descriptive, like 'Add homepage layout'.";
     command := js "git commit -m " ++ JS.dquote ++ js "your message" ++ JS.dquote;
     args := 5;
     requiresInput := Some commit_request;
     notes := None |}.

Definition click (step_id : string) : Message :=
  {| type := js "runStep"; stepId := js step_id |}.

Definition sample_answers (text : option JS.str) (p : ProcessOutcome) : Answers :=
  {| typed := text; process := p; failure := js "Command failed: git" |}.

(** ** Resolved arguments *)

(** An argument list as the walkthrough resolves it: the arguments of a step
    of the catalog, followed, for a step that asks for input, by at most one
    text that is not blank. *)
Definition resolved_shape (arguments : list JS.str) : Prop :=
  exists st, st ∈ WALKTHROUGH_STEPS /\
    (arguments = template st \/
     exists text, requiresInput st <> None /\ JS.trim text <> [] /\
                  arguments = template st ++ [text]).

Definition spawn_shaped (e : Effect) : Prop :=
  match e with
  | EExecFile file arguments _ => file = js "git" /\ resolved_shape arguments
  | _ => True
  end.

(** Calls that leave the store alone and register nothing. *)
Definition passive {X : Type} (c : Call X) : Prop :=
  match c with
  | GetView | GetWorkspaceFolders | AppendLine _ | Show
  | ShowErrorMessage _ | PostMessage _ _ => True
  | _ => False
  end.

(** A program that works on its own array [l]: it reads no other array,
    pushes onto [l] at most once (only while the flag is set) a text that is
    not blank, and spawns nothing but git, on arguments it has read. *)
Inductive scoped (l : loc) {A : Type} : bool -> Prog A -> Prop :=
| scoped_Ret (b : bool) (a : A) : scoped l b (Ret a)
| scoped_passive (b : bool) {X : Type} (c : Call X) (k : X -> Prog A) :
    passive c -> (forall x, scoped l b (k x)) -> scoped l b (Do c k)
| scoped_read (b : bool) (k : list JS.str -> Prog A) :
    (forall xs, resolved_shape xs -> scoped l b (k xs)) ->
    scoped l b (Do (ArrayRead l) k)
| scoped_push (s : JS.str) (k : unit -> Prog A) :
    JS.trim s <> [] -> (forall x, scoped l false (k x)) ->
    scoped l true (Do (ArrayPush l s) k)
| scoped_input (b : bool) (p ph : JS.str) (k : option JS.str -> Prog A) :
    (forall x, scoped l b (k x)) -> scoped l b (Wait (ShowInputBox p ph) k)
| scoped_exec (b : bool) (xs : list JS.str) (cwd : JS.str) (k : ExecReply -> Prog A) :
    resolved_shape xs -> (forall x, scoped l b (k x)) ->
    scoped l b (Wait (ExecFile (js "git") xs cwd) k).

Definition scoped_task (o : loc * bool) (t : Task) : Prop :=
  match t with
  | Suspended _ k => forall x, scoped (fst o) (snd o) (k x)
  end.

(** An array that a suspended invocation may still push onto holds the
    arguments of a step that asks for input, as the catalog has them. *)
Definition owner_ok (store : Arrays) (o : loc * bool) : Prop :=
  fst o < length store /\
  (snd o = true ->
   exists st, st ∈ WALKTHROUGH_STEPS /\ requiresInput st <> None /\
              store !! fst o = Some (template st)).

Definition asks_input (st : WalkthroughStep) : bool :=
  match requiresInput st with
  | Some _ => true
  | None => false
  end.

(** The second invariant of the event loop: every array of the store and
    every spawn of the trace is resolved, and the suspended invocations work
    on arrays of their own. *)
Record shaped (s : Loop) (owners : list (loc * bool)) : Prop := {
  shaped_store : Forall resolved_shape (arrays (world s));
  shaped_trace : Forall spawn_shaped (effects (world s));
  shaped_tasks : Forall2 (fun t o => scoped_task o t) (pending s) owners;
  shaped_apart : NoDup (owners.*1);
  shaped_owners : Forall (owner_ok (arrays (world s))) owners
}.

(** ** The view that is posted to *)

(** A program that, while the provider's view is [v] (or unset), posts to no
    other view and does not replace the view; after a suspension the view
    may be another one, so what follows must be so for every view. *)
Inductive aimed {A : Type} : view -> Prog A -> Prop :=
| aimed_Ret (v : view) (a : A) : aimed v (Ret a)
| aimed_GetView (v : view) (k : option view -> Prog A) :
    aimed v (k (Some v)) -> aimed v (k None) -> aimed v (Do GetView k)
| aimed_PostMessage (v : view) (m : Outbound) (k : unit -> Prog A) :
    (forall x, aimed v (k x)) -> aimed v (Do (PostMessage v m) k)
| aimed_Do (v : view) {X : Type} (c : Call X) (k : X -> Prog A) :
    match c with
    | GetView | PostMessage _ _ | SetView _ => False
    | _ => True
    end ->
    (forall x, aimed v (k x)) -> aimed v (Do c k)
| aimed_Wait (v : view) {X : Type} (a : Await X) (k : X -> Prog A) :
    (forall x v', aimed v' (k x)) -> aimed v (Wait a k).

Definition fair_task (t : Task) : Prop :=
  match t with
  | Suspended _ k => forall x v, aimed v (k x)
  end.

Definition is_resolve (a : HostAction) : bool :=
  match a with
  | Resolve _ => true
  | _ => false
  end.

(** ** extension.ts: the quick actions *)

(** The notifications of [vscode.window]. *)
Inductive Notice :=
| Information (text : JS.str)      (* showInformationMessage *)
| Warning (text : JS.str).         (* showWarningMessage *)

(** A command handler: array literals, awaited calls into the code above,
    and notifications. *)
Inductive Script : Type :=
| Done
| NewArray (elements : list JS.str) (k : loc -> Script)
| Inner {X : Type} (p : Prog X) (k : X -> Script)
| Notify (n : Notice) (k : Script).

Record Desk := {
  inside : World;
  notices : list Notice
}.

(** A handler runs to its end, or to the awaited call that throws. *)
Fixpoint run_script (h : Answers) (s : Script) (d : Desk) : Desk :=
  match s with
  | Done => d
  | NewArray elements k =>
      run_script h (k (length (arrays (inside d))))
        {| inside := with_arrays (arrays (inside d) ++ [elements]) (inside d);
           notices := notices d |}
  | Inner p k =>
      match run h p (inside d) with
      | (Some x, w) => run_script h (k x) {| inside := w; notices := notices d |}
      | (None, w) => {| inside := w; notices := notices d |}
      end
  | Notify n k =>
      run_script h k {| inside := inside d; notices := notices d ++ [n] |}
  end.

(** "gitHelper.status" *)
Definition gitHelper_status : Script :=
  NewArray [js "status"] (fun args =>
  Inner (runGitCommand args) (fun result =>
  if success result
  then Notify (Information (js "Git status — check the Output panel for details.")) Done
  else Done)).

(** "gitHelper.add" *)
Definition gitHelper_add : Script :=
  NewArray [js "add"; js "."] (fun args =>
  Inner (runGitCommand args) (fun result =>
  if success result
  then Notify (Information (js "All files staged successfully!")) Done
  else Done)).

(** "gitHelper.commit".  [!message] holds for undefined and for the empty
    string only. *)
Definition gitHelper_commit : Script :=
  Inner (await (ShowInputBox (js "Enter your commit message")
                  (js "e.g., Fix login button alignment"))) (fun message =>
  match message with
  | None | Some [] =>
      Notify (Warning (js "Commit cancelled — no message provided.")) Done
  | Some (c :: rest) =>
      let message := c :: rest in
      NewArray [js "commit"; js "-m"; message] (fun args =>
      Inner (runGitCommand args) (fun result =>
      if success result
      then Notify (Information (js "Committed: " ++ JS.dquote ++ message ++ JS.dquote)) Done
      else Done))
  end).

(** "gitHelper.push" *)
Definition gitHelper_push : Script :=
  NewArray [js "push"] (fun args =>
  Inner (runGitCommand args) (fun result =>
  if success result
  then Notify (Information (js "Pushed to remote successfully!")) Done
  else Done)).

(** "gitHelper.pull" *)
Definition gitHelper_pull : Script :=
  NewArray [js "pull"] (fun args =>
  Inner (runGitCommand args) (fun result =>
  if success result
  then Notify (Information (js "Pulled latest changes!")) Done
  else Done)).

(** ** walkthroughProvider.ts: the script of the webview *)

(** The properties of a DOM element that the script writes. *)
Record Element := {
  className : JS.str;
  textContent : JS.str;
  disabled : bool;
  style_display : JS.str
}.

(** [document.getElementById] *)
Definition Document := JS.str -> option Element.

(** The page: its elements, and what it has sent with [vscode.postMessage]. *)
Record Page := {
  document : Document;
  outbox : list Message
}.

(** Writing properties of the element with id [i], if there is one (the
    script tests every element it looked up before it touches it). *)
Definition alter_element (i : JS.str) (f : Element -> Element) (d : Document) : Document :=
  fun j => if JS.eqb j i then option_map f (d j) else d j.

(** [function runStep(stepId)] *)
Definition runStep (stepId : JS.str) (p : Page) : Page :=
  {| document :=
       alter_element (js "btn-" ++ stepId)
         (fun button =>
            {| className := className button; textContent := js "Running...";
               disabled := true; style_display := style_display button |})
         (document p);
     outbox := outbox p ++ [{| type := js "runStep"; stepId := stepId |}] |}.

(** The listener of ['message'] events. *)
Definition onMessage (message : Outbound) (d : Document) : Document :=
  match message with
  | StatusMessage stepId _ =>
      alter_element (js "status-" ++ stepId)
        (fun statusEl =>
           {| className := js "step-status status-running";
              textContent := js "Running...";
              disabled := disabled statusEl; style_display := style_display statusEl |})
        d
  | ResultMessage stepId ok text =>
      let d1 :=
        alter_element (js "btn-" ++ stepId)
          (fun button =>
             {| className := className button; textContent := js "Run Step";
                disabled := false; style_display := style_display button |})
          d in
      let d2 :=
        alter_element (js "status-" ++ stepId)
          (fun statusEl =>
             if ok
             then {| className := js "step-status status-success";
                     textContent := js "Success!";
                     disabled := disabled statusEl;
                     style_display := style_display statusEl |}
             else {| className := js "step-status status-error";
                     textContent := js "Error (see output below)";
                     disabled := disabled statusEl;
                     style_display := style_display statusEl |})
          d1 in
      alter_element (js "output-" ++ stepId)
        (fun outputEl =>
           {| className := className outputEl; textContent := text;
              disabled := disabled outputEl; style_display := js "block" |})
        d2
  end.

(** [_getStepHtml]: the elements of a card that the script looks up, as the
    page is served. *)
Definition card (st : WalkthroughStep) : list (JS.str * Element) :=
  [(js "btn-" ++ id st,
    {| className := js "run-button";
       textContent := JS.newline ++ repeat 32%N 16 ++ js "Run Step" ++
                      JS.newline ++ repeat 32%N 12;
       disabled := false; style_display := js "" |});
   (js "status-" ++ id st,
    {| className := js "step-status"; textContent := js "";
       disabled := false; style_display := js "" |});
   (js "output-" ++ id st,
    {| className := js "step-output"; textContent := js "";
       disabled := false; style_display := js "none" |})].

(** [_getHtmlContent]: one card for each step of the catalog. *)
Definition served_document : Document :=
  fun i =>
    option_map snd
      (find (fun e => JS.eqb (fst e) i) (flat_map card WALKTHROUGH_STEPS)).

Definition served_page : Page := {| document := served_document; outbox := [] |}.

(** The page after the messages the extension posted have arrived, in the
    order they were posted. *)
Definition deliver (posts : list (view * Outbound)) (d : Document) : Document :=
  fold_left (fun d p => onMessage (snd p) d) posts d.

(** What a run added to the trace of a world. *)
Definition added (before after : World) : list Effect :=
  drop (length (effects before)) (effects after).

(** [execFile] reports no error: git ran to its end with status 0 and no
    stream overflowed. *)
Definition ran_clean (p : ProcessOutcome) : bool :=
  match p with
  | Exited 0 _ _ => true
  | _ => false
  end.

(** What the caller of the runner sees of a result that may never come. *)
Definition succeeded (result : option GitCommandResult) : bool :=
  match result with
  | Some r => success r
  | None => false
  end.

(** Whether a call of the runner on [arguments] succeeds: a workspace folder
    is open, [execFile] takes the call and reports no error. *)
Definition git_succeeds (h : Answers) (w : World) (arguments : list JS.str) : bool :=
  match workspaceFolders w with
  | Some (cwd :: _) =>
      negb (rejects (ExecFile (js "git") arguments cwd)) && ran_clean (process h)
  | _ => false
  end.

(** The calls of [execFile] in a call of the runner on [arguments]. *)
Definition git_spawn (w : World) (arguments : list JS.str) : list Effect :=
  match workspaceFolders w with
  | Some (cwd :: _) => [EExecFile (js "git") arguments cwd]
  | _ => []
  end.

(** What the four quick actions without input have in common: they run git
    on a fixed argument list of their own and announce a success. *)
Definition announces (s : Script) (arguments : list JS.str) (text : JS.str) : Prop :=
  forall (h : Answers) (d : Desk),
    let after := run_script h s d in
    arrays (inside after) = arrays (inside d) ++ [arguments] /\
    filter is_spawn (added (inside d) (inside after)) = git_spawn (inside d) arguments /\
    notices after =
      notices d ++
      (if git_succeeds h (inside d) arguments then [Information text] else []).

(** The step a message of the extension is about. *)
Definition target (m : Outbound) : JS.str :=
  match m with
  | StatusMessage step_id _ => step_id
  | ResultMessage step_id _ _ => step_id
  end.

(** * Properties *)

Arguments JS.lit : simpl never.
Arguments on_exit : simpl never.
Arguments runGitCommand : simpl never.
Arguments post : simpl never.
Arguments run_step : simpl never.

(** ** Strings *)

Lemma eqb_eq (a b : JS.str) : JS.eqb a b = true <-> a = b.
Proof.
  revert b; induction a as [|x a IH]; intros [|y b]; simpl; split;
    try congruence; try reflexivity.
  - intros [Hx Hab]%andb_prop. apply N.eqb_eq in Hx. apply IH in Hab.
    congruence.
  - intros [= -> ->]. rewrite N.eqb_refl. simpl. now apply IH.
Qed.

Lemma eqb_empty (s : JS.str) : JS.eqb s (js "") = true <-> s = [].
Proof. apply (eqb_eq s []). Qed.

Lemma eqb_nonempty (s : JS.str) : s <> [] -> JS.eqb s (js "") = false.
Proof.
  intros Hs. destruct (JS.eqb s (js "")) eqn:E; [|reflexivity].
  now apply eqb_empty in E.
Qed.






(** ** Worlds *)

Lemma emit_all_app (es fs : list Effect) (w : World) :
  emit_all fs (emit_all es w) = emit_all (es ++ fs) w.
Proof. unfold emit_all; simpl. now rewrite app_assoc. Qed.

Lemma emit_all_nothing (w : World) : emit_all [] w = w.
Proof. destruct w. unfold emit_all. cbn. now rewrite app_nil_r. Qed.

Lemma added_app (w after : World) (es : list Effect) :
  effects after = effects w ++ es -> added w after = es.
Proof. intros H. unfold added. rewrite H. apply drop_app_length. Qed.

Lemma posted_app (es fs : list Effect) : posted (es ++ fs) = posted es ++ posted fs.
Proof. apply omap_app. Qed.

Ltac in_list :=
  unfold announcement;
  repeat (rewrite elem_of_app || rewrite elem_of_cons); auto 12.

(** ** Programs *)

Lemma run_bind {A B : Type} (h : Answers) (m : Prog A) (f : A -> Prog B) (w : World) :
  run h (bind m f) w =
    match run h m w with
    | (Some a, w') => run h (f a) w'
    | (None, w') => (None, w')
    end.
Proof.
  revert w; induction m as [a|X c k IH|X a k IH]; intros w; simpl.
  - reflexivity.
  - destruct (perform c w) as [x w']. apply IH.
  - destruct (rejects a); [reflexivity|apply IH].
Qed.

Lemma run_bind_Some {A B : Type} (h : Answers) (m : Prog A) (f : A -> Prog B)
    (w w' : World) (a : A) :
  run h m w = (Some a, w') -> run h (bind m f) w = run h (f a) w'.
Proof. intros H. now rewrite run_bind, H. Qed.

Lemma run_bind_None {A B : Type} (h : Answers) (m : Prog A) (f : A -> Prog B)
    (w w' : World) :
  run h m w = (None, w') -> run h (bind m f) w = (None, w').
Proof. intros H. now rewrite run_bind, H. Qed.

Lemma find_step_id (sid : JS.str) (step : WalkthroughStep) :
  find_step sid = Some step -> id step = sid.
Proof.
  unfold find_step. intros H. apply find_some in H as [_ H].
  now apply eqb_eq.
Qed.

(** ** The runner *)

Lemma run_on_exit (h : Answers) (reply : ExecReply) (w : World) :
  let text := JS.trim (stdout reply ++ stderr reply) in
  run h (on_exit reply) w =
    match error reply with
    | Some message =>
        (Some {| success := false; output := JS.or_else text message |},
         emit_all [EAppendLine (js "ERROR:" ++ JS.newline ++ JS.or_else text message);
                   EShow; EAppendLine (js "")] w)
    | None =>
        (Some {| success := true; output := JS.or_else text (js "(no output)") |},
         emit_all [EAppendLine (JS.or_else text (js "(no output)"));
                   EShow; EAppendLine (js "")] w)
    end.
Proof.
  unfold on_exit. destruct (error reply); cbn;
    unfold emit; now rewrite !emit_all_app.
Qed.

Lemma run_runGitCommand_no_folder (h : Answers) (args : loc) (w : World) :
  workspaceFolders w = None \/ workspaceFolders w = Some [] ->
  run h (runGitCommand args) w =
    (Some {| success := false; output := no_folder_message |},
     emit_all [EAppendLine (js "ERROR: " ++ no_folder_message); EShow;
               EShowErrorMessage no_folder_message] w).
Proof.
  intros H. unfold runGitCommand. cbn.
  destruct H as [-> | ->]; cbn; unfold emit; now rewrite !emit_all_app.
Qed.

Lemma run_runGitCommand_folder (h : Answers) (args : loc) (w : World)
    (cwd : JS.str) (others : list JS.str) :
  workspaceFolders w = Some (cwd :: others) ->
  let arguments := default [] (arrays w !! args) in
  accepted arguments cwd ->
  run h (runGitCommand args) w =
    run h (on_exit (execFile_reply (failure h) (process h)))
      (emit_all (announcement arguments cwd ++ [EExecFile (js "git") arguments cwd]) w).
Proof.
  intros H arguments Hok. unfold runGitCommand. cbn. rewrite H. cbn.
  fold arguments. unfold accepted in Hok. cbn in Hok. rewrite Hok.
  unfold emit. now rewrite !emit_all_app.
Qed.

(** When [execFile] throws, the runner ends after the announcement and the
    call, with no result. *)
Lemma run_runGitCommand_rejected (h : Answers) (args : loc) (w : World)
    (cwd : JS.str) (others : list JS.str) :
  workspaceFolders w = Some (cwd :: others) ->
  let arguments := default [] (arrays w !! args) in
  ~ accepted arguments cwd ->
  run h (runGitCommand args) w =
    (None,
     emit_all (announcement arguments cwd ++ [EExecFile (js "git") arguments cwd]) w).
Proof.
  intros H arguments Hno. unfold runGitCommand. cbn. rewrite H. cbn.
  fold arguments. unfold accepted in Hno. cbn in Hno.
  apply not_false_is_true in Hno. rewrite Hno.
  unfold emit. now rewrite !emit_all_app.
Qed.

Lemma accepted_dec (arguments : list JS.str) (cwd : JS.str) :
  accepted arguments cwd \/ ~ accepted arguments cwd.
Proof.
  unfold accepted. destruct (rejects _); [right; discriminate|left; reflexivity].
Qed.

(** The runner, case by case. *)
Lemma run_runGitCommand_cases (h : Answers) (args : loc) (w : World) :
  let arguments := default [] (arrays w !! args) in
  let reply := execFile_reply (failure h) (process h) in
  let text := JS.trim (stdout reply ++ stderr reply) in
  run h (runGitCommand args) w =
    match workspaceFolders w with
    | Some (cwd :: _) =>
        if rejects (ExecFile (js "git") arguments cwd)
        then
          (None,
           emit_all (announcement arguments cwd ++ [EExecFile (js "git") arguments cwd]) w)
        else
          match error reply with
          | Some message =>
              (Some {| success := false; output := JS.or_else text message |},
               emit_all
                 (announcement arguments cwd ++
                  [EExecFile (js "git") arguments cwd;
                   EAppendLine (js "ERROR:" ++ JS.newline ++ JS.or_else text message);
                   EShow; EAppendLine (js "")]) w)
          | None =>
              (Some {| success := true; output := JS.or_else text (js "(no output)") |},
               emit_all
                 (announcement arguments cwd ++
                  [EExecFile (js "git") arguments cwd;
                   EAppendLine (JS.or_else text (js "(no output)"));
                   EShow; EAppendLine (js "")]) w)
          end
    | _ =>
        (Some {| success := false; output := no_folder_message |},
         emit_all [EAppendLine (js "ERROR: " ++ no_folder_message); EShow;
                   EShowErrorMessage no_folder_message] w)
    end.
Proof.
  intros arguments reply text.
  destruct (workspaceFolders w) as [[|cwd others]|] eqn:Hcwd.
  - apply run_runGitCommand_no_folder. right. exact Hcwd.
  - destruct (rejects (ExecFile (js "git") arguments cwd)) eqn:Hrej.
    + apply (run_runGitCommand_rejected h args w cwd others Hcwd).
      unfold accepted. fold arguments. congruence.
    + rewrite (run_runGitCommand_folder h args w cwd others Hcwd Hrej). fold arguments.
      pose proof (run_on_exit h reply (emit_all
        (announcement arguments cwd ++ [EExecFile (js "git") arguments cwd]) w)) as H.
      cbn zeta in H. fold reply. rewrite H. fold text.
      destruct (error reply); rewrite emit_all_app, <- app_assoc; reflexivity.
  - apply run_runGitCommand_no_folder. left. exact Hcwd.
Qed.

Lemma run_runGitCommand_appends (h : Answers) (args : loc) (w : World) :
  exists result appended,
    run h (runGitCommand args) w = (result, emit_all appended w) /\
    posted appended = [] /\ filter is_prompt appended = [] /\
    length (filter is_spawn appended) <= 1.
Proof.
  pose proof (run_runGitCommand_cases h args w) as H. cbn zeta in H. rewrite H.
  destruct (workspaceFolders w) as [[|cwd others]|];
    [| destruct (rejects _);
       [|destruct (error (execFile_reply (failure h) (process h)))] |];
    do 2 eexists; (split; [reflexivity|]);
    (split; [reflexivity|]); (split; [reflexivity|]);
    vm_compute; lia.
Qed.

(** With a folder open the runner calls [execFile], on the array it was
    given and in the first folder. *)
Lemma run_runGitCommand_calls (h : Answers) (args : loc) (w : World)
    (cwd : JS.str) (others : list JS.str) :
  workspaceFolders w = Some (cwd :: others) ->
  exists result appended,
    run h (runGitCommand args) w = (result, emit_all appended w) /\
    EExecFile (js "git") (default [] (arrays w !! args)) cwd ∈ appended.
Proof.
  intros Hcwd.
  pose proof (run_runGitCommand_cases h args w) as H. cbn zeta in H. rewrite H, Hcwd.
  destruct (rejects _);
    [|destruct (error (execFile_reply (failure h) (process h)))];
    do 2 eexists; (split; [reflexivity|]); in_list.
Qed.

(** The runner returns unless [execFile] throws. *)
Lemma run_runGitCommand_returns (h : Answers) (args : loc) (w : World) :
  (forall cwd others,
     workspaceFolders w = Some (cwd :: others) ->
     accepted (default [] (arrays w !! args)) cwd) ->
  exists result, fst (run h (runGitCommand args) w) = Some result.
Proof.
  intros Hok.
  pose proof (run_runGitCommand_cases h args w) as H. cbn zeta in H. rewrite H.
  destruct (workspaceFolders w) as [[|cwd others]|]; [now eexists| |now eexists].
  rewrite (Hok cwd others eq_refl).
  destruct (error (execFile_reply (failure h) (process h))); now eexists.
Qed.

Lemma error_iff_not_clean (failure : JS.str) (p : ProcessOutcome) :
  error (execFile_reply failure p) = None <-> ran_clean p = true.
Proof.
  destruct p as [status out err|out err|status out err|]; cbn;
    try (split; discriminate).
  destruct status; cbn; split; congruence.
Qed.

Lemma run_on_exit_result (h : Answers) (reply : ExecReply) (w : World) :
  exists result,
    fst (run h (on_exit reply) w) = Some result /\
    (success result = true <-> error reply = None).
Proof.
  pose proof (run_on_exit h reply w) as H. cbn zeta in H. rewrite H.
  destruct (error reply); cbn; eexists; (split; [reflexivity|]);
    cbn; split; congruence.
Qed.

(** C2 does not hold of the code.  Whenever git is spawned, the result
    reports success exactly when [execFile] reports no error, and that takes
    more than an exit status of 0: a child that exits with status 0 after one
    of its streams has passed the buffer of [execFile] is reported as failed,
    against the comment on [success] ("exit code 0").  A non-zero status and
    a child that could not be started are failures, as documented. *)
Theorem exit_status_zero_reported_as_failure (h : Answers) (args : loc) (w : World)
    (cwd : JS.str) (others : list JS.str) :
  workspaceFolders w = Some (cwd :: others) ->
  accepted (default [] (arrays w !! args)) cwd ->
  exists result,
    fst (run h (runGitCommand args) w) = Some result /\
    (success result = true <-> ran_clean (process h) = true) /\
    (forall out err,
       process h = Overflowed (Some 0%Z) out err ->
       exit_status (process h) = Some 0%Z /\ success result = false) /\
    (forall status out err,
       process h = Exited status out err -> status <> 0%Z -> success result = false) /\
    (process h = NotStarted -> success result = false).
Proof.
  intros Hcwd Hok.
  rewrite (run_runGitCommand_folder h args w cwd others Hcwd Hok).
  destruct (run_on_exit_result h (execFile_reply (failure h) (process h))
              (emit_all
                 (announcement (default [] (arrays w !! args)) cwd ++
                  [EExecFile (js "git") (default [] (arrays w !! args)) cwd]) w))
    as (result & Hres & Hiff).
  rewrite error_iff_not_clean in Hiff.
  exists result. split; [exact Hres|]. split; [exact Hiff|].
  assert (Hfalse : ran_clean (process h) = false -> success result = false).
  { intros Hp. destruct (success result); [|reflexivity].
    destruct Hiff as [Hiff _]. specialize (Hiff eq_refl). congruence. }
  repeat split.
  - now rewrite H.
  - apply Hfalse. now rewrite H.
  - intros status out err Hp Hne. apply Hfalse. rewrite Hp.
    destruct status; [congruence|reflexivity|reflexivity].
  - intros Hp. apply Hfalse. now rewrite Hp.
Qed.

Lemma exit_status_zero_reported_as_failure_witness :
  exists result,
    fst (run (sample_answers None (Overflowed (Some 0%Z) kept_output (js "")))
           (runGitCommand 2) sample_world) = Some result /\
    exit_status (Overflowed (Some 0%Z) kept_output (js "")) = Some 0%Z /\
    success result = false.
Proof.
  destruct (exit_status_zero_reported_as_failure
              (sample_answers None (Overflowed (Some 0%Z) kept_output (js "")))
              2 sample_world (js "/home/u/project") [] eq_refl)
    as (result & Hres & _ & Hover & _).
  - vm_compute. reflexivity.
  - exists result. split; [exact Hres|].
    apply (Hover kept_output (js "")). reflexivity.
Defined.




(** C4. Without a workspace folder the runner spawns nothing and resolves to
    a failure with the fixed message, after writing that message to the
    output channel and showing the channel. *)
Theorem no_folder_refused_and_logged (h : Answers) (args : loc) (w : World) :
  workspaceFolders w = None \/ workspaceFolders w = Some [] ->
  exists appended,
    run h (runGitCommand args) w =
      (Some {| success := false; output := no_folder_message |}, emit_all appended w) /\
    filter is_spawn appended = [] /\
    filter is_log appended = [EAppendLine (js "ERROR: " ++ no_folder_message); EShow].
Proof.
  intros H. eexists. split; [apply run_runGitCommand_no_folder, H|].
  split; reflexivity.
Qed.

Lemma no_folder_refused_and_logged_witness :
  exists appended,
    run (sample_answers None NotStarted) (runGitCommand 2) sample_world_no_folder =
      (Some {| success := false; output := no_folder_message |},
       emit_all appended sample_world_no_folder) /\
    filter is_spawn appended = [] /\
    filter is_log appended = [EAppendLine (js "ERROR: " ++ no_folder_message); EShow].
Proof.
  apply (no_folder_refused_and_logged (sample_answers None NotStarted) 2
           sample_world_no_folder).
  left. reflexivity.
Defined.

(** C6, as stated, fails: without a workspace folder the log receives one
    line only, so neither the command line nor the blank separator; and an
    argument whose only whitespace is a tab is displayed unquoted. *)
Lemma log_block_counterexample :
  ~ block_as_specified
      (log_lines (effects (snd (run (sample_answers None NotStarted)
                                  (runGitCommand 2) sample_world_no_folder)))) /\
  quote_for_display (js "a" ++ [9%N] ++ js "b")
    <> quote_as_specified (js "a" ++ [9%N] ++ js "b").
Proof.
  split.
  - intros (c & d & t & Hsub). apply sublist_length in Hsub.
    vm_compute in Hsub. lia.
  - vm_compute. discriminate.
Qed.

(** C6, amended. With a workspace folder, every invocation whose call
    [execFile] takes (no argument and no folder path holds U+0000) returns,
    having logged the command line (arguments that contain a space in double
    quotes), the working directory, a rule, the output (after ["ERROR:"] and
    a line feed on failure), shown the channel and logged a blank line;
    without a folder, it returns having logged the error line and shown the
    channel. *)
Theorem log_of_every_invocation (h : Answers) (args : loc) (w : World) :
  let arguments := default [] (arrays w !! args) in
  (forall cwd others,
     workspaceFolders w = Some (cwd :: others) -> accepted arguments cwd) ->
  exists result appended,
    run h (runGitCommand args) w = (Some result, emit_all appended w) /\
    filter is_log appended =
      match workspaceFolders w with
      | Some (cwd :: _) =>
          [EAppendLine
             (js "> " ++ js "git " ++
              JS.join (js " ")
                (map (fun a => if existsb (N.eqb 32) a
                               then JS.dquote ++ a ++ JS.dquote else a) arguments));
           EAppendLine (js "  (in: " ++ cwd ++ js ")");
           EAppendLine (js "---");
           EAppendLine (if success result then output result
                        else js "ERROR:" ++ JS.newline ++ output result);
           EShow;
           EAppendLine (js "")]
      | _ => [EAppendLine (js "ERROR: " ++ output result); EShow]
      end.
Proof.
  intros arguments Hok.
  destruct (workspaceFolders w) as [[|cwd others]|] eqn:Hcwd.
  - rewrite run_runGitCommand_no_folder by (right; exact Hcwd).
    do 2 eexists. split; [reflexivity|]. cbn [success output]. reflexivity.
  - rewrite (run_runGitCommand_folder h args w cwd others Hcwd
               (Hok cwd others eq_refl)).
    pose proof (run_on_exit h (execFile_reply (failure h) (process h)) (emit_all
      (announcement (default [] (arrays w !! args)) cwd ++
       [EExecFile (js "git") (default [] (arrays w !! args)) cwd]) w)) as H.
    cbn zeta in H. rewrite H.
    destruct (error (execFile_reply (failure h) (process h)));
      rewrite emit_all_app;
      do 2 eexists; (split; [reflexivity|]); cbn [success output];
      timeout 10 reflexivity.
  - rewrite run_runGitCommand_no_folder by (left; exact Hcwd).
    do 2 eexists. split; [reflexivity|]. cbn [success output]. reflexivity.
Qed.

Lemma log_of_every_invocation_witness :
  exists result appended,
    run (sample_answers None (Exited 0 (js "On branch main") (js "")))
      (runGitCommand 2) sample_world = (Some result, emit_all appended sample_world) /\
    filter is_log appended =
      [EAppendLine (js "> git status");
       EAppendLine (js "  (in: /home/u/project)");
       EAppendLine (js "---");
       EAppendLine (if success result then output result
                    else js "ERROR:" ++ JS.newline ++ output result);
       EShow;
       EAppendLine (js "")].
Proof.
  destruct (log_of_every_invocation
              (sample_answers None (Exited 0 (js "On branch main") (js "")))
              2 sample_world)
    as (result & appended & Hrun & Hlog).
  - intros cwd others H. vm_compute in H. injection H as <- <-.
    vm_compute. reflexivity.
  - exists result, appended. split; [exact Hrun|].
    etransitivity; [exact Hlog|]. vm_compute. reflexivity.
Defined.

(** ** The controller *)

Lemma run_post (h : Answers) (m : Outbound) (w : World) :
  run h (post m) w =
    (Some tt, match _view w with Some v => emit (EPostMessage v m) w | None => w end).
Proof. unfold post. cbn. now destruct (_view w). Qed.

Lemma run_post_appends (h : Answers) (m : Outbound) (w : World) :
  exists es,
    run h (post m) w = (Some tt, emit_all es w) /\
    filter is_prompt es = [] /\ filter is_spawn es = [] /\ filter is_log es = [].
Proof.
  rewrite run_post. destruct (_view w) as [v|].
  - exists [EPostMessage v m]. repeat split; reflexivity.
  - exists []. rewrite emit_all_nothing. repeat split; reflexivity.
Qed.

(** One run of a step: the status, the runner, and the result if the runner
    returns one. *)
Lemma run_run_step (h : Answers) (step : WalkthroughStep) (args : loc) (w : World)
    (v : view) :
  _view w = Some v ->
  let running := EPostMessage v (StatusMessage (id step) (js "running")) in
  exists result appended,
    run h (runGitCommand args) (emit running w)
      = (result, emit_all appended (emit running w)) /\
    posted appended = [] /\ filter is_prompt appended = [] /\
    run h (run_step step args) w =
      match result with
      | Some r =>
          (Some tt,
           emit_all
             ([running] ++ appended ++
              [EPostMessage v (ResultMessage (id step) (success r) (output r))])
             w)
      | None => (None, emit_all ([running] ++ appended) w)
      end.
Proof.
  intros Hv running.
  destruct (run_runGitCommand_appends h args (emit running w))
    as (result & appended & Hrun & Hposted & Hprompt & _).
  exists result, appended. repeat split; try assumption.
  unfold run_step, _sendStatusToWebview, _sendResultToWebview.
  erewrite run_bind_Some by apply run_post. rewrite Hv. fold running.
  destruct result as [r|].
  - erewrite run_bind_Some by exact Hrun.
    rewrite run_post. cbn [_view emit_all emit]. rewrite Hv.
    unfold emit. now rewrite !emit_all_app.
  - erewrite run_bind_None by exact Hrun.
    unfold emit. now rewrite !emit_all_app.
Qed.

(** C10. A message whose type is not ["runStep"] does nothing: the handler
    returns at once, leaving the world (store, trace) as it was, whatever
    step id the message carries; nor does it leave anything suspended. *)
Theorem other_message_types_ignored (h : Answers) (m : Message) (w : World) :
  type m <> js "runStep" ->
  run h (_handleMessage m) w = (Some tt, w) /\
  advance (_handleMessage m) w = (w, None).
Proof.
  intros Hty. unfold _handleMessage.
  destruct (JS.eqb (type m) (js "runStep")) eqn:E.
  - now apply eqb_eq in E.
  - split; reflexivity.
Qed.

Lemma other_message_types_ignored_witness :
  run (sample_answers (Some (js "x")) NotStarted)
      (_handleMessage {| type := js "refresh"; stepId := js "commit" |}) sample_world
    = (Some tt, sample_world) /\
  advance (_handleMessage {| type := js "refresh"; stepId := js "commit" |}) sample_world
    = (sample_world, None).
Proof.
  apply (other_message_types_ignored (sample_answers (Some (js "x")) NotStarted)
           {| type := js "refresh"; stepId := js "commit" |} sample_world).
  vm_compute. discriminate.
Defined.

(** C7. A run-step message whose step id is not in the catalog does nothing:
    no prompt, no process, no log line, no message to the webview; the world
    is left as it was and nothing stays suspended. *)
Theorem unknown_step_ignored (h : Answers) (m : Message) (w : World) :
  type m = js "runStep" ->
  find_step (stepId m) = None ->
  run h (_handleMessage m) w = (Some tt, w) /\
  advance (_handleMessage m) w = (w, None).
Proof.
  intros Hty Hfind. unfold _handleMessage.
  apply eqb_eq in Hty. rewrite Hty, Hfind. split; reflexivity.
Qed.

Lemma unknown_step_ignored_witness :
  run (sample_answers (Some (js "x")) NotStarted)
      (_handleMessage (click "rebase")) sample_world = (Some tt, sample_world) /\
  advance (_handleMessage (click "rebase")) sample_world = (sample_world, None).
Proof.
  apply (unknown_step_ignored (sample_answers (Some (js "x")) NotStarted)
           (click "rebase") sample_world); reflexivity.
Defined.

Lemma push_on_fresh_copy (store : Arrays) (copy : list JS.str) (s : JS.str) :
  alter (fun xs => xs ++ [s]) (length store) (store ++ [copy]) = store ++ [copy ++ [s]].
Proof.
  rewrite alter_app_r_alt by lia. now rewrite Nat.sub_diag.
Qed.

(** The handler on a run-step message for a step of the catalog. *)
Lemma run_handle_known (h : Answers) (m : Message) (step : WalkthroughStep) (w : World) :
  type m = js "runStep" ->
  find_step (stepId m) = Some step ->
  let copy := default [] (arrays w !! args step) in
  let resolved := length (arrays w) in
  run h (_handleMessage m) w =
    match requiresInput step with
    | None => run h (run_step step resolved) (with_arrays (arrays w ++ [copy]) w)
    | Some request =>
        let asked := EShowInputBox (prompt request) (placeholder request) in
        match typed h with
        | None =>
            run h (_sendResultToWebview (id step)
                     {| success := false; output := cancelled_message |})
              (emit asked (with_arrays (arrays w ++ [copy]) w))
        | Some text =>
            if JS.eqb (JS.trim text) (js "")
            then
              run h (_sendResultToWebview (id step)
                       {| success := false; output := cancelled_message |})
                (emit asked (with_arrays (arrays w ++ [copy]) w))
            else
              run h (run_step step resolved)
                (emit asked (with_arrays (arrays w ++ [copy ++ [text]]) w))
        end
    end.
Proof.
  intros Hty Hfind copy resolved. subst copy resolved. unfold _handleMessage.
  apply eqb_eq in Hty. rewrite Hty, Hfind. cbn.
  destruct (requiresInput step) as [request|]; [|reflexivity].
  cbn. destruct (typed h) as [text|]; [|reflexivity].
  destruct (JS.eqb (JS.trim text) (js "")); [reflexivity|].
  cbn. rewrite push_on_fresh_copy. reflexivity.
Qed.

(** C5. When the step asks for input and the user cancels the box or types
    nothing but whitespace, the handler shows the box, posts one result to
    the webview (failure, the fixed cancellation message) and does nothing
    else: no process, no write to the output channel. *)
Theorem cancelled_input_runs_nothing (h : Answers) (m : Message)
    (step : WalkthroughStep) (request : InputRequest) (w : World) (v : view) :
  type m = js "runStep" ->
  find_step (stepId m) = Some step ->
  requiresInput step = Some request ->
  _view w = Some v ->
  (typed h = None \/ exists text, typed h = Some text /\ JS.trim text = []) ->
  let appended :=
    [EShowInputBox (prompt request) (placeholder request);
     EPostMessage v (ResultMessage (stepId m) false cancelled_message)] in
  effects (snd (run h (_handleMessage m) w)) = effects w ++ appended /\
  filter is_spawn appended = [] /\
  filter is_log appended = [] /\
  posted appended = [(v, ResultMessage (stepId m) false cancelled_message)].
Proof.
  intros Hty Hfind Hreq Hv Hcancel appended.
  split; [|repeat split].
  rewrite (run_handle_known h m step w Hty Hfind). cbn zeta. rewrite Hreq.
  rewrite (find_step_id _ _ Hfind).
  assert (Hsend : forall w', _view w' = Some v -> effects w' =
            effects w ++ [EShowInputBox (prompt request) (placeholder request)] ->
            effects (snd (run h (_sendResultToWebview (stepId m)
              {| success := false; output := cancelled_message |}) w'))
            = effects w ++ appended).
  { intros w' Hv' He. unfold _sendResultToWebview. rewrite run_post, Hv'.
    cbn. rewrite He, <- app_assoc. reflexivity. }
  destruct Hcancel as [-> | (text & -> & Hempty)].
  - apply Hsend; [exact Hv|reflexivity].
  - rewrite Hempty. cbn. apply Hsend; [exact Hv|reflexivity].
Qed.

Lemma cancelled_input_runs_nothing_witness :
  effects (snd (run (sample_answers (Some (js "   ")) NotStarted)
                  (_handleMessage (click "commit")) sample_world))
    = effects sample_world ++
      [EShowInputBox (prompt commit_request) (placeholder commit_request);
       EPostMessage 0 (ResultMessage (stepId (click "commit")) false cancelled_message)].
Proof.
  refine (proj1 (cancelled_input_runs_nothing
                   (sample_answers (Some (js "   ")) NotStarted)
                   (click "commit") commit_step commit_request sample_world 0 _ _ _ _ _)).
  - reflexivity.
  - vm_compute. reflexivity.
  - reflexivity.
  - reflexivity.
  - right. exists (js "   "). split; [reflexivity|]. vm_compute. reflexivity.
Defined.

(** C1. When the step asks for input and the user types a text that is not
    empty after trimming, the runner is called on an array that holds the
    step's arguments followed by that text, unchanged, as one more element;
    with a workspace folder open, that very list is what [execFile] is
    handed for git. *)
Theorem typed_input_appended_verbatim (h : Answers) (m : Message)
    (step : WalkthroughStep) (request : InputRequest) (w : World)
    (arguments : list JS.str) (text : JS.str) :
  type m = js "runStep" ->
  find_step (stepId m) = Some step ->
  requiresInput step = Some request ->
  arrays w !! args step = Some arguments ->
  typed h = Some text ->
  JS.trim text <> [] ->
  let resolved := length (arrays w) in
  let before_running :=
    emit (EShowInputBox (prompt request) (placeholder request))
      (with_arrays (arrays w ++ [arguments ++ [text]]) w) in
  run h (_handleMessage m) w = run h (run_step step resolved) before_running /\
  arrays before_running !! resolved = Some (arguments ++ [text]) /\
  length (arguments ++ [text]) = S (length arguments) /\
  last (arguments ++ [text]) = Some text /\
  (forall cwd others,
     workspaceFolders w = Some (cwd :: others) ->
     EExecFile (js "git") (arguments ++ [text]) cwd
       ∈ effects (snd (run h (_handleMessage m) w))).
Proof.
  intros Hty Hfind Hreq Hargs Htyped Htext resolved before_running.
  assert (Hrun : run h (_handleMessage m) w = run h (run_step step resolved) before_running).
  { rewrite (run_handle_known h m step w Hty Hfind). cbn zeta.
    rewrite Hreq, Htyped, (eqb_nonempty _ Htext), Hargs. reflexivity. }
  assert (Hlook : arrays before_running !! resolved = Some (arguments ++ [text])).
  { subst before_running resolved. cbn. apply list_lookup_middle. reflexivity. }
  split; [exact Hrun|]. split; [exact Hlook|].
  split; [rewrite length_app; cbn; lia|].
  split; [apply last_snoc|].
  intros cwd others Hcwd. rewrite Hrun.
  unfold run_step, _sendStatusToWebview, _sendResultToWebview.
  destruct (run_post_appends h (StatusMessage (id step) (js "running")) before_running)
    as (es1 & Hpost & _).
  erewrite run_bind_Some by exact Hpost.
  destruct (run_runGitCommand_calls h resolved (emit_all es1 before_running) cwd others Hcwd)
    as (result & es2 & Hgit & Hin).
  cbn [arrays emit_all] in Hin. rewrite Hlook in Hin.
  change (default [] (Some (arguments ++ [text]))) with (arguments ++ [text]) in Hin.
  destruct result as [r|].
  - erewrite run_bind_Some by exact Hgit.
    destruct (run_post_appends h (ResultMessage (id step) (success r) (output r))
                (emit_all es2 (emit_all es1 before_running))) as (es3 & -> & _).
    cbn [snd effects emit_all]. in_list.
  - erewrite run_bind_None by exact Hgit.
    cbn [snd effects emit_all]. in_list.
Qed.

Lemma typed_input_appended_verbatim_witness :
  EExecFile (js "git") ([js "commit"; js "-m"] ++ [js "; rm -rf /"]) (js "/home/u/project")
    ∈ effects (snd (run (sample_answers (Some (js "; rm -rf /")) (Exited 0 (js "") (js "")))
                      (_handleMessage (click "commit")) sample_world)).
Proof.
  refine (proj2 (proj2 (proj2 (proj2
    (typed_input_appended_verbatim
       (sample_answers (Some (js "; rm -rf /")) (Exited 0 (js "") (js "")))
       (click "commit") commit_step commit_request sample_world
       [js "commit"; js "-m"] (js "; rm -rf /") _ _ _ _ _ _))))
    (js "/home/u/project") [] _).
  - reflexivity.
  - vm_compute. reflexivity.
  - reflexivity.
  - vm_compute. reflexivity.
  - reflexivity.
  - vm_compute. discriminate.
  - reflexivity.
Defined.

Lemma run_step_posts (h : Answers) (step : WalkthroughStep) (args : loc) (w : World)
    (v : view) :
  _view w = Some v ->
  exists appended,
    effects (snd (run h (run_step step args) w)) = effects w ++ appended /\
    match fst (run h (run_step step args) w) with
    | Some _ =>
        exists result,
          posted appended =
            [(v, StatusMessage (id step) (js "running"));
             (v, ResultMessage (id step) (success result) (output result))]
    | None => posted appended = [(v, StatusMessage (id step) (js "running"))]
    end.
Proof.
  intros Hv.
  destruct (run_run_step h step args w v Hv)
    as (result & appended & _ & Hposted & _ & Hrun).
  rewrite Hrun. destruct result as [r|]; cbn [fst snd]; eexists;
    (split; [reflexivity|]).
  - exists r. rewrite !posted_app, Hposted. reflexivity.
  - rewrite !posted_app, Hposted. reflexivity.
Qed.

(** What the handler posts for a step of the catalog: when it runs to its
    end, a status and a result or a result alone; when [execFile] throws, the
    status alone. *)
Lemma handler_posts (h : Answers) (m : Message) (st : WalkthroughStep) (w : World)
    (v : view) :
  type m = js "runStep" ->
  find_step (stepId m) = Some st ->
  _view w = Some v ->
  match fst (run h (_handleMessage m) w) with
  | Some _ =>
      exists result,
        posted (added w (snd (run h (_handleMessage m) w)))
          = [(v, StatusMessage (stepId m) (js "running"));
             (v, ResultMessage (stepId m) (success result) (output result))] \/
        posted (added w (snd (run h (_handleMessage m) w)))
          = [(v, ResultMessage (stepId m) (success result) (output result))]
  | None =>
      posted (added w (snd (run h (_handleMessage m) w)))
        = [(v, StatusMessage (stepId m) (js "running"))]
  end.
Proof.
  intros Hty Hfind Hv.
  rewrite (run_handle_known h m st w Hty Hfind). cbn zeta.
  rewrite <- (find_step_id _ _ Hfind).
  assert (Hstep : forall w' es,
    _view w' = Some v -> effects w' = effects w ++ es -> posted es = [] ->
    match fst (run h (run_step st (length (arrays w))) w') with
    | Some _ =>
        exists result,
          posted (added w (snd (run h (run_step st (length (arrays w))) w')))
            = [(v, StatusMessage (id st) (js "running"));
               (v, ResultMessage (id st) (success result) (output result))] \/
          posted (added w (snd (run h (run_step st (length (arrays w))) w')))
            = [(v, ResultMessage (id st) (success result) (output result))]
    | None =>
        posted (added w (snd (run h (run_step st (length (arrays w))) w')))
          = [(v, StatusMessage (id st) (js "running"))]
    end).
  { intros w' es Hv' He Hes.
    destruct (run_step_posts h st (length (arrays w)) w' v Hv')
      as (appended & Heff & Hposted).
    rewrite (added_app w _ (es ++ appended))
      by (rewrite Heff, He, app_assoc; reflexivity).
    rewrite posted_app, Hes.
    destruct (fst (run h (run_step st (length (arrays w))) w')).
    - destruct Hposted as (result & Hposted). exists result. left. exact Hposted.
    - exact Hposted. }
  assert (Hsend : forall w' es,
    _view w' = Some v -> effects w' = effects w ++ es -> posted es = [] ->
    match fst (run h (_sendResultToWebview (id st)
                 {| success := false; output := cancelled_message |}) w') with
    | Some _ =>
        exists result,
          posted (added w (snd (run h (_sendResultToWebview (id st)
                     {| success := false; output := cancelled_message |}) w')))
            = [(v, StatusMessage (id st) (js "running"));
               (v, ResultMessage (id st) (success result) (output result))] \/
          posted (added w (snd (run h (_sendResultToWebview (id st)
                     {| success := false; output := cancelled_message |}) w')))
            = [(v, ResultMessage (id st) (success result) (output result))]
    | None =>
        posted (added w (snd (run h (_sendResultToWebview (id st)
                   {| success := false; output := cancelled_message |}) w')))
          = [(v, StatusMessage (id st) (js "running"))]
    end).
  { intros w' es Hv' He Hes. unfold _sendResultToWebview. rewrite run_post, Hv'.
    cbn [fst snd].
    exists {| success := false; output := cancelled_message |}. right.
    rewrite (added_app w _
               (es ++ [EPostMessage v (ResultMessage (id st) false cancelled_message)])).
    - rewrite posted_app, Hes. cbn. reflexivity.
    - cbn. rewrite He, <- app_assoc. reflexivity. }
  destruct (requiresInput st) as [request|].
  - destruct (typed h) as [text|].
    + destruct (JS.eqb (JS.trim text) (js "")).
      * apply (Hsend _ [EShowInputBox (prompt request) (placeholder request)]);
          [exact Hv|reflexivity|reflexivity].
      * apply (Hstep _ [EShowInputBox (prompt request) (placeholder request)]);
          [exact Hv|reflexivity|reflexivity].
    + apply (Hsend _ [EShowInputBox (prompt request) (placeholder request)]);
        [exact Hv|reflexivity|reflexivity].
  - apply (Hstep _ []); [exact Hv| |reflexivity].
    cbn. now rewrite app_nil_r.
Qed.

Lemma run_step_returns (h : Answers) (st : WalkthroughStep) (l : loc) (w : World) :
  (forall cwd others,
     workspaceFolders w = Some (cwd :: others) ->
     accepted (default [] (arrays w !! l)) cwd) ->
  fst (run h (run_step st l) w) = Some tt.
Proof.
  intros Hok. unfold run_step, _sendStatusToWebview, _sendResultToWebview.
  destruct (run_post_appends h (StatusMessage (id st) (js "running")) w)
    as (es1 & Hpost & _).
  erewrite run_bind_Some by exact Hpost.
  destruct (run_runGitCommand_returns h l (emit_all es1 w) Hok) as (r & Hr).
  destruct (run h (runGitCommand l) (emit_all es1 w)) as [result w2] eqn:E.
  cbn [fst] in Hr. subst result.
  erewrite run_bind_Some by exact E.
  destruct (run_post_appends h (ResultMessage (id st) (success r) (output r)) w2)
    as (es3 & -> & _).
  reflexivity.
Qed.

(** The handler runs to its end unless [execFile] throws on the arguments it
    hands over. *)
Lemma handler_returns (h : Answers) (m : Message) (st : WalkthroughStep) (w : World) :
  type m = js "runStep" ->
  find_step (stepId m) = Some st ->
  (forall cwd others,
     workspaceFolders w = Some (cwd :: others) -> accepted (handed h st w) cwd) ->
  fst (run h (_handleMessage m) w) = Some tt.
Proof.
  intros Hty Hfind Hok.
  rewrite (run_handle_known h m st w Hty Hfind). cbn zeta.
  unfold handed in Hok.
  assert (Hsend : forall w',
            fst (run h (_sendResultToWebview (id st)
                          {| success := false; output := cancelled_message |}) w')
            = Some tt).
  { intros w'. unfold _sendResultToWebview. now rewrite run_post. }
  destruct (requiresInput st) as [request|].
  - destruct (typed h) as [text|]; [|apply Hsend].
    destruct (JS.eqb (JS.trim text) (js "")); [apply Hsend|].
    apply run_step_returns. intros cwd others Hcwd.
    match goal with
    | |- accepted (default [] (?store !! ?l)) _ =>
        replace (store !! l) with (Some (default [] (arrays w !! args st) ++ [text]))
          by (symmetry; cbn; apply list_lookup_middle; reflexivity)
    end.
    exact (Hok cwd others Hcwd).
  - apply run_step_returns. intros cwd others Hcwd.
    match goal with
    | |- accepted (default [] (?store !! ?l)) _ =>
        replace (store !! l) with (Some (default [] (arrays w !! args st)))
          by (symmetry; cbn; apply list_lookup_middle; reflexivity)
    end.
    specialize (Hok cwd others Hcwd). rewrite app_nil_r in Hok. exact Hok.
Qed.

Lemma nul_rejected (arguments : list JS.str) (text cwd : JS.str) :
  has_nul text = true -> ~ accepted (arguments ++ [text]) cwd.
Proof.
  intros Hnul. unfold accepted. cbn [rejects].
  rewrite existsb_app. cbn [existsb]. rewrite Hnul.
  rewrite !orb_true_r. discriminate.
Qed.

(** C8 does not hold of the code.  When the typed text holds U+0000 and a
    workspace folder is open, [execFile] throws on the resolved arguments and
    nothing catches it: the handler has posted the ["running"] status and
    ends there, so the result that the comments promise ("send the result
    back") is never posted. *)
Theorem running_without_result (h : Answers) (m : Message)
    (step : WalkthroughStep) (request : InputRequest) (w : World) (v : view)
    (cwd : JS.str) (others : list JS.str) (text : JS.str) :
  type m = js "runStep" ->
  find_step (stepId m) = Some step ->
  requiresInput step = Some request ->
  _view w = Some v ->
  workspaceFolders w = Some (cwd :: others) ->
  typed h = Some text ->
  JS.trim text <> [] ->
  has_nul text = true ->
  fst (run h (_handleMessage m) w) = None /\
  posted (added w (snd (run h (_handleMessage m) w)))
    = [(v, StatusMessage (stepId m) (js "running"))].
Proof.
  intros Hty Hfind Hreq Hv Hcwd Htyped Htext Hnul.
  rewrite (run_handle_known h m step w Hty Hfind). cbn zeta.
  rewrite Hreq, Htyped, (eqb_nonempty _ Htext), <- (find_step_id _ _ Hfind).
  set (asked := EShowInputBox (prompt request) (placeholder request)).
  set (copy := default [] (arrays w !! args step)).
  set (w1 := emit asked (with_arrays (arrays w ++ [copy ++ [text]]) w)).
  destruct (run_run_step h step (length (arrays w)) w1 v Hv)
    as (result & appended & Hgit & Hposted & _ & Hrun).
  rewrite Hrun.
  assert (Hnone : result = None).
  { rewrite (run_runGitCommand_rejected h (length (arrays w))
               (emit (EPostMessage v (StatusMessage (id step) (js "running"))) w1)
               cwd others Hcwd) in Hgit.
    - now injection Hgit as <- _.
    - match goal with
      | |- ~ accepted (default [] (?store !! ?l)) _ =>
          replace (store !! l) with (Some (copy ++ [text]))
            by (symmetry; cbn; apply list_lookup_middle; reflexivity)
      end.
      now apply nul_rejected. }
  subst result. cbn [fst snd]. split; [reflexivity|].
  rewrite (added_app w _
             ([asked] ++
              [EPostMessage v (StatusMessage (id step) (js "running"))] ++ appended)).
  - rewrite !posted_app, Hposted. reflexivity.
  - cbn [effects emit emit_all w1 with_arrays]. now rewrite <- !app_assoc.
Qed.

Lemma running_without_result_witness :
  fst (run (sample_answers (Some (js "fix" ++ [0%N] ++ js "bug")) (Exited 0 (js "") (js "")))
         (_handleMessage (click "commit")) sample_world) = None /\
  posted (added sample_world
            (snd (run (sample_answers (Some (js "fix" ++ [0%N] ++ js "bug"))
                         (Exited 0 (js "") (js "")))
                    (_handleMessage (click "commit")) sample_world)))
    = [(0, StatusMessage (stepId (click "commit")) (js "running"))].
Proof.
  apply (running_without_result
           (sample_answers (Some (js "fix" ++ [0%N] ++ js "bug")) (Exited 0 (js "") (js "")))
           (click "commit") commit_step commit_request sample_world 0
           (js "/home/u/project") [] (js "fix" ++ [0%N] ++ js "bug")).
  - reflexivity.
  - vm_compute. reflexivity.
  - reflexivity.
  - reflexivity.
  - reflexivity.
  - reflexivity.
  - vm_compute. discriminate.
  - vm_compute. reflexivity.
Defined.

(** ** The catalog is never written *)

Lemma confined_bind (n : nat) {A B : Type} (m : Prog A) (f : A -> Prog B) :
  confined n m -> (forall a, confined n (f a)) -> confined n (bind m f).
Proof.
  intros Hm Hf. induction Hm as [a|X c k Hc _ IH|X a k _ IH]; cbn.
  - apply Hf.
  - apply confined_Do; [exact Hc|]. intros x Hx. now apply IH.
  - apply confined_Wait. intros x. apply IH.
Qed.

Lemma confined_call (n : nat) {X : Type} (c : Call X) :
  allowed n c -> confined n (call c).
Proof.
  intros Hc. apply confined_Do; [exact Hc|]. intros x _. apply confined_Ret.
Qed.

Lemma confined_post (n : nat) (m : Outbound) : confined n (post m).
Proof.
  unfold post. apply confined_bind; [now apply confined_call|].
  intros [v|]; [now apply confined_call|apply confined_Ret].
Qed.

Lemma confined_on_exit (n : nat) (reply : ExecReply) : confined n (on_exit reply).
Proof.
  unfold on_exit. destruct (error reply);
    repeat (apply confined_bind; [now apply confined_call|intros _]);
    apply confined_Ret.
Qed.

Lemma confined_runGitCommand (n : nat) (args : loc) : confined n (runGitCommand args).
Proof.
  unfold runGitCommand. apply confined_bind; [now apply confined_call|].
  intros [[|cwd others]|].
  - repeat (apply confined_bind; [now apply confined_call|intros _]).
    apply confined_Ret.
  - apply confined_bind; [now apply confined_call|intros shown].
    repeat (apply confined_bind; [now apply confined_call|intros _]).
    apply confined_bind; [now apply confined_call|intros passed].
    apply confined_bind; [|apply confined_on_exit].
    apply confined_Wait. intros reply. apply confined_Ret.
  - repeat (apply confined_bind; [now apply confined_call|intros _]).
    apply confined_Ret.
Qed.

Lemma confined_run_step (n : nat) (step : WalkthroughStep) (args : loc) :
  confined n (run_step step args).
Proof.
  unfold run_step. apply confined_bind; [apply confined_post|intros _].
  apply confined_bind; [apply confined_runGitCommand|intros result].
  apply confined_post.
Qed.

(** The only array the handler pushes onto is the copy it has just made. *)
Lemma confined_handleMessage (n : nat) (m : Message) : confined n (_handleMessage m).
Proof.
  unfold _handleMessage.
  destruct (negb (JS.eqb (type m) (js "runStep"))); [apply confined_Ret|].
  destruct (find_step (stepId m)) as [step|]; [|apply confined_Ret].
  apply confined_Do; [exact I|]. intros copy Hcopy. cbn in Hcopy. cbn.
  destruct (requiresInput step) as [request|]; [|apply confined_run_step].
  apply confined_Wait. intros [text|]; cbn; [|apply confined_post].
  destruct (JS.eqb (JS.trim text) (js "")); [apply confined_post|].
  apply confined_Do; [exact Hcopy|]. intros _ _. apply confined_run_step.
Qed.

Lemma perform_allowed (n : nat) {X : Type} (c : Call X) (w : World) :
  allowed n c ->
  n <= length (arrays w) ->
  take n (arrays (snd (perform c w))) = take n (arrays w) /\
  n <= length (arrays (snd (perform c w))) /\
  handlers (snd (perform c w)) = handlers w /\
  (is_Some (_view w) -> is_Some (_view (snd (perform c w)))) /\
  fresh_reply n c (fst (perform c w)).
Proof.
  intros Hc Hn.
  destruct c; cbn in *; repeat split; try assumption; try lia; try tauto.
  - now apply take_app_le.
  - rewrite length_app. lia.
  - now apply take_alter_ge.
  - now rewrite length_alter.
  - intros _. now eexists.
Qed.

Lemma advance_confined (n : nat) (p : Prog unit) (w : World) :
  confined n p ->
  n <= length (arrays w) ->
  take n (arrays (fst (advance p w))) = take n (arrays w) /\
  n <= length (arrays (fst (advance p w))) /\
  handlers (fst (advance p w)) = handlers w /\
  (is_Some (_view w) -> is_Some (_view (fst (advance p w)))) /\
  Forall (confined_task n) (option_list (snd (advance p w))).
Proof.
  intros Hp. revert w. induction Hp as [a|X c k Hc Hk IH|X a k Hk _]; intros w Hn; cbn.
  - repeat split; auto.
  - destruct (perform_allowed n c w Hc Hn) as (Htake & Hlen & Hh & Hv & Hx).
    destruct (perform c w) as [x w'] eqn:E. cbn in *.
    destruct (IH x Hx w' Hlen) as (Htake' & Hlen' & Hh' & Hv' & Hts).
    repeat split; try assumption; try congruence; auto.
  - destruct (rejects a); cbn; repeat split; auto.
Qed.

Lemma start_invariant (p : Prog unit) (s : Loop) :
  confined (length initial_arrays) p ->
  loop_invariant s ->
  loop_invariant (start p (pending s) (world s)).
Proof.
  intros Hp [Hcat Hview Htasks].
  assert (Hn : length initial_arrays <= length (arrays (world s))).
  { rewrite <- Hcat at 1. rewrite length_take. lia. }
  destruct (advance_confined _ p (world s) Hp Hn) as (Htake & Hlen & Hh & Hv & Hts).
  unfold start. destruct (advance p (world s)) as [w' t]. cbn in *.
  split; cbn.
  - congruence.
  - rewrite Hh. auto.
  - apply Forall_app. split; assumption.
Qed.

Lemma resume_confined (n : nat) (t : Task) (r : Response) (p : Prog unit) :
  confined_task n t -> resume t r = Some p -> confined n p.
Proof.
  destruct t as [X a k]. cbn. intros Hk.
  destruct a, r; intros [= <-]; apply Hk.
Qed.

Lemma host_step_invariant (s : Loop) (a : HostAction) :
  loop_invariant s -> loop_invariant (host_step s a).
Proof.
  intros Hs. destruct a as [v|v m|i r|f]; cbn.
  - destruct Hs as [Hcat Hview Htasks]. split; cbn.
    + exact Hcat.
    + intros _. now eexists.
    + now rewrite app_nil_r.
  - destruct (existsb (Nat.eqb v) (handlers (world s))); [|exact Hs].
    apply start_invariant; [apply confined_handleMessage|exact Hs].
  - destruct (pending s !! i) as [t|] eqn:Ht; [|exact Hs].
    destruct (resume t r) as [p|] eqn:Hp; [|exact Hs].
    destruct Hs as [Hcat Hview Htasks].
    apply (start_invariant p {| world := world s; pending := delete i (pending s) |}).
    + apply (resume_confined _ t r); [|exact Hp].
      exact (proj1 (Forall_lookup _ _) Htasks i t Ht).
    + split; cbn; [exact Hcat|exact Hview|now apply Forall_delete].
  - destruct Hs as [Hcat Hview Htasks]. split; assumption.
Qed.

Lemma activate_invariant (folders : option (list JS.str)) :
  loop_invariant (activate folders).
Proof.
  split.
  - apply firstn_all.
  - intros H. now destruct H.
  - constructor.
Qed.

(** Whatever the host does after activation, the invariant holds. *)
Lemma host_run_invariant (s : Loop) (actions : list HostAction) :
  loop_invariant s -> loop_invariant (host_run s actions).
Proof.
  revert s. induction actions as [|a actions IH]; intros s Hs; cbn.
  - exact Hs.
  - apply IH, host_step_invariant, Hs.
Qed.

Lemma catalog_references :
  Forall (fun step => args step < length initial_arrays) WALKTHROUGH_STEPS.
Proof. repeat constructor. Qed.

(** C9. Whatever the host does after activation -- panels opened, messages
    received, input boxes answered or cancelled, processes ended, in any
    interleaving -- every [args] array of the catalog holds what the source
    of steps.ts put there; the user input only ever lands in a copy. *)
Theorem catalog_never_mutated (folders : option (list JS.str))
    (actions : list HostAction) :
  let s := host_run (activate folders) actions in
  take (length initial_arrays) (arrays (world s)) = initial_arrays /\
  Forall (fun step => arrays (world s) !! args step = Some (template step))
    WALKTHROUGH_STEPS /\
  map template WALKTHROUGH_STEPS = map lit_args steps_source.
Proof.
  intros s.
  pose proof (host_run_invariant _ actions (activate_invariant folders)) as [Hcat _ _].
  fold s in Hcat. split; [exact Hcat|]. split; [|vm_compute; reflexivity].
  eapply Forall_impl; [apply catalog_references|].
  intros step Hlt. cbn beta in Hlt.
  rewrite <- (lookup_take_lt _ (length initial_arrays)) by exact Hlt.
  rewrite Hcat. unfold template.
  destruct (initial_arrays !! args step) as [xs|] eqn:E; [reflexivity|].
  apply lookup_ge_None in E. lia.
Qed.

(** A message reaches the handler only through a listener, and by then the
    provider has its view: the senders do post. *)
Lemma delivered_message_finds_view (folders : option (list JS.str))
    (actions : list HostAction) (v : view) :
  let s := host_run (activate folders) actions in
  existsb (Nat.eqb v) (handlers (world s)) = true -> is_Some (_view (world s)).
Proof.
  intros s Hv.
  pose proof (host_run_invariant _ actions (activate_invariant folders)) as [_ Hview _].
  apply Hview. fold s. intros Hnil. rewrite Hnil in Hv. discriminate.
Qed.

(** ** The examples of the specification *)

Example commit_fix_bug :
  effects (snd (run (sample_answers (Some (js "fix bug")) (Exited 0 (js "") (js "")))
                  (run_step commit_step 9)
                  (emit (EShowInputBox (prompt commit_request) (placeholder commit_request))
                     (with_arrays (initial_arrays ++ [[js "commit"; js "-m"; js "fix bug"]])
                        sample_world))))
  = [EShowInputBox (js "Enter your commit message") (js "e.g., Add initial project files");
     EPostMessage 0 (StatusMessage (js "commit") (js "running"));
     EAppendLine (js "> git commit -m " ++ JS.dquote ++ js "fix bug" ++ JS.dquote);
     EAppendLine (js "  (in: /home/u/project)");
     EAppendLine (js "---");
     EExecFile (js "git") [js "commit"; js "-m"; js "fix bug"] (js "/home/u/project");
     EAppendLine (js "(no output)");
     EShow;
     EAppendLine (js "");
     EPostMessage 0 (ResultMessage (js "commit") true (js "(no output)"))].
Proof. vm_compute. reflexivity. Qed.

Example status_on_branch_main :
  fst (run (sample_answers None (Exited 0 (js "On branch main") (js "")))
         (runGitCommand 2) sample_world)
  = Some {| success := true; output := js "On branch main" |}.
Proof. vm_compute. reflexivity. Qed.

Example status_outside_repository :
  fst (run (sample_answers None (Exited 1 (js "") (js "fatal: not a git repository")))
         (runGitCommand 2) sample_world)
  = Some {| success := false; output := js "fatal: not a git repository" |}.
Proof. vm_compute. reflexivity. Qed.

Example killed_by_a_signal :
  fst (run (sample_answers None (Signalled (js "") (js "")))
         (runGitCommand 2) sample_world)
  = Some {| success := false; output := js "Command failed: git" |}.
Proof. vm_compute. reflexivity. Qed.

Example nul_ends_the_invocation :
  let s := host_run (activate (Some [js "/home/u/project"]))
             [Resolve 7; Receive 7 (click "commit");
              Respond 0 (Typed (Some (js "fix" ++ [0%N] ++ js "bug")))] in
  pending s = [] /\
  posted (effects (world s)) = [(7, StatusMessage (js "commit") (js "running"))] /\
  last (effects (world s))
    = Some (EExecFile (js "git") [js "commit"; js "-m"; js "fix" ++ [0%N] ++ js "bug"]
              (js "/home/u/project")).
Proof. vm_compute. repeat split; reflexivity. Qed.

Example cancel_then_commit_interleaved :
  let s := host_run (activate (Some [js "/home/u/project"]))
             [Resolve 7; Receive 7 (click "commit"); Receive 7 (click "commit");
              Respond 0 (Typed None); Respond 0 (Typed (Some (js "first")));
              Respond 0 (Ended (js "") (Exited 0 (js "") (js "")))] in
  pending s = [] /\
  arrays (world s) = initial_arrays ++ [[js "commit"; js "-m"];
                                        [js "commit"; js "-m"; js "first"]].
Proof. vm_compute. split; reflexivity. Qed.

(** * Further properties *)

(** ** The runner *)

(** X1. The runner touches nothing but the trace: the store, the provider's view,
    the listeners and the workspace are as before, what was already in the
    trace stays, and what is added holds no message to the webview, no input
    box and at most one spawn. *)
Theorem runner_only_appends (h : Answers) (args : loc) (w : World) :
  let after := snd (run h (runGitCommand args) w) in
  arrays after = arrays w /\
  _view after = _view w /\
  handlers after = handlers w /\
  workspaceFolders after = workspaceFolders w /\
  exists appended,
    effects after = effects w ++ appended /\
    posted appended = [] /\
    filter is_prompt appended = [] /\
    length (filter is_spawn appended) <= 1.
Proof.
  intros after. subst after.
  destruct (run_runGitCommand_appends h args w)
    as (result & appended & -> & Hposted & Hprompt & Hspawn).
  cbn. repeat (split; [reflexivity|]). exists appended. auto.
Qed.

(** X2. Of several workspace folders only the first counts: the result and the
    whole trace are those of a workspace that has the first folder alone,
    and [execFile] is called for git in that folder. *)
Theorem runner_uses_first_folder (h : Answers) (args : loc) (w : World)
    (cwd : JS.str) (others : list JS.str) :
  workspaceFolders w = Some (cwd :: others) ->
  let alone :=
    {| arrays := arrays w; _view := _view w; handlers := handlers w;
       workspaceFolders := Some [cwd]; effects := effects w |} in
  fst (run h (runGitCommand args) w) = fst (run h (runGitCommand args) alone) /\
  effects (snd (run h (runGitCommand args) w))
    = effects (snd (run h (runGitCommand args) alone)) /\
  EExecFile (js "git") (default [] (arrays w !! args)) cwd
    ∈ effects (snd (run h (runGitCommand args) w)).
Proof.
  intros Hcwd alone.
  pose proof (run_runGitCommand_cases h args w) as H. cbn zeta in H.
  pose proof (run_runGitCommand_cases h args alone) as H'. cbn zeta in H'.
  rewrite H, H', Hcwd. cbn [workspaceFolders alone arrays].
  destruct (rejects _);
    [|destruct (error (execFile_reply (failure h) (process h)))]; cbn [fst snd];
    (split; [reflexivity|]); (split; [reflexivity|]);
    cbn [effects emit_all]; in_list.
Qed.

Lemma runner_uses_first_folder_witness :
  fst (run (sample_answers None (Exited 0 (js "On branch main") (js "")))
         (runGitCommand 2) sample_world_two_folders)
  = fst (run (sample_answers None (Exited 0 (js "On branch main") (js "")))
           (runGitCommand 2) sample_world) /\
  EExecFile (js "git") [js "status"] (js "/home/u/project")
    ∈ effects (snd (run (sample_answers None (Exited 0 (js "On branch main") (js "")))
                      (runGitCommand 2) sample_world_two_folders)).
Proof.
  destruct (runner_uses_first_folder
              (sample_answers None (Exited 0 (js "On branch main") (js "")))
              2 sample_world_two_folders (js "/home/u/project") [js "/home/u/library"]
              eq_refl) as (Hresult & _ & Hspawn).
  split; [exact Hresult|exact Hspawn].
Defined.

(** ** The controller *)

(** From the status notification on, nothing prompts and the store is left
    alone. *)
Lemma run_step_appends (h : Answers) (st : WalkthroughStep) (args : loc) (w : World) :
  exists es,
    snd (run h (run_step st args) w) = emit_all es w /\ filter is_prompt es = [].
Proof.
  unfold run_step, _sendStatusToWebview, _sendResultToWebview.
  destruct (run_post_appends h (StatusMessage (id st) (js "running")) w)
    as (es1 & Hpost & Hp1 & _).
  erewrite run_bind_Some by exact Hpost.
  destruct (run_runGitCommand_appends h args (emit_all es1 w))
    as (result & es2 & Hgit & _ & Hp2 & _).
  destruct result as [r|].
  - erewrite run_bind_Some by exact Hgit.
    destruct (run_post_appends h (ResultMessage (id st) (success r) (output r))
                (emit_all es2 (emit_all es1 w))) as (es3 & -> & Hp3 & _).
    exists (es1 ++ es2 ++ es3). cbn [snd]. rewrite !emit_all_app.
    split; [reflexivity|]. rewrite !filter_app, Hp1, Hp2, Hp3. reflexivity.
  - erewrite run_bind_None by exact Hgit.
    exists (es1 ++ es2). cbn [snd]. rewrite !emit_all_app.
    split; [reflexivity|]. rewrite !filter_app, Hp1, Hp2. reflexivity.
Qed.

(** X3. A step that asks for no input never opens the input box: the runner is
    called on a copy that holds the step's arguments and nothing more, and
    with a workspace folder open [execFile] is called for git on exactly
    these. *)
Theorem step_without_input_runs_its_arguments (h : Answers) (m : Message)
    (st : WalkthroughStep) (w : World) (arguments : list JS.str) :
  type m = js "runStep" ->
  find_step (stepId m) = Some st ->
  requiresInput st = None ->
  arrays w !! args st = Some arguments ->
  let resolved := length (arrays w) in
  let copied := with_arrays (arrays w ++ [arguments]) w in
  run h (_handleMessage m) w = run h (run_step st resolved) copied /\
  arrays copied !! resolved = Some arguments /\
  filter is_prompt (added w (snd (run h (_handleMessage m) w))) = [] /\
  (forall cwd others,
     workspaceFolders w = Some (cwd :: others) ->
     EExecFile (js "git") arguments cwd ∈ effects (snd (run h (_handleMessage m) w))).
Proof.
  intros Hty Hfind Hreq Hargs resolved copied.
  assert (Hrun : run h (_handleMessage m) w = run h (run_step st resolved) copied).
  { rewrite (run_handle_known h m st w Hty Hfind). cbn zeta.
    rewrite Hreq, Hargs. reflexivity. }
  assert (Hlook : arrays copied !! resolved = Some arguments).
  { subst copied resolved. cbn. apply list_lookup_middle. reflexivity. }
  split; [exact Hrun|]. split; [exact Hlook|]. rewrite Hrun. split.
  - destruct (run_step_appends h st resolved copied) as (es & -> & Hes).
    rewrite (added_app w _ es) by reflexivity. exact Hes.
  - intros cwd others Hcwd.
    unfold run_step, _sendStatusToWebview, _sendResultToWebview.
    destruct (run_post_appends h (StatusMessage (id st) (js "running")) copied)
      as (es1 & Hpost & _).
    erewrite run_bind_Some by exact Hpost.
    destruct (run_runGitCommand_calls h resolved (emit_all es1 copied) cwd others Hcwd)
      as (result & es2 & Hgit & Hin).
    cbn [arrays emit_all] in Hin. rewrite Hlook in Hin.
    change (default [] (Some arguments)) with arguments in Hin.
    destruct result as [r|].
    + erewrite run_bind_Some by exact Hgit.
      destruct (run_post_appends h (ResultMessage (id st) (success r) (output r))
                  (emit_all es2 (emit_all es1 copied))) as (es3 & -> & _).
      cbn [snd effects emit_all]. in_list.
    + erewrite run_bind_None by exact Hgit.
      cbn [snd effects emit_all]. in_list.
Qed.

Lemma step_without_input_runs_its_arguments_witness :
  EExecFile (js "git") [js "push"; js "-u"; js "origin"; js "main"] (js "/home/u/project")
    ∈ effects (snd (run (sample_answers None (Exited 0 (js "") (js "")))
                      (_handleMessage (click "push")) sample_world)).
Proof.
  refine (proj2 (proj2 (proj2
    (step_without_input_runs_its_arguments
       (sample_answers None (Exited 0 (js "") (js ""))) (click "push")
       {| id := js "push"; title := js "8. Push to GitHub";
          description :=
            js "Push uploads your commits to the remote repository (GitHub). " ++
            js "The '-u' flag sets 'origin main' as the default, so next time " ++
            js "you can just type 'git push' without the extra arguments.";
          command := js "git push -u origin main";
          args := 7;
          requiresInput := None;
          notes := Some
            (js "If your default branch is called 'master' instead of 'main', " ++
             js "change 'main' to 'master'. Newer Git versions use 'main' by default.") |}
       sample_world [js "push"; js "-u"; js "origin"; js "main"] _ _ _ _)))
    (js "/home/u/project") [] _).
  - reflexivity.
  - vm_compute. reflexivity.
  - reflexivity.
  - vm_compute. reflexivity.
  - reflexivity.
Defined.

Lemma clean_iff_no_error (h : Answers) :
  ran_clean (process h) =
    match error (execFile_reply (failure h) (process h)) with
    | None => true
    | Some _ => false
    end.
Proof.
  pose proof (error_iff_not_clean (failure h) (process h)) as H.
  destruct (error (execFile_reply (failure h) (process h)));
    destruct (ran_clean (process h)); try reflexivity.
  - destruct H as [_ H]. now specialize (H eq_refl).
  - destruct H as [H _]. now specialize (H eq_refl).
Qed.




(** ** The catalog *)

Lemma catalog_found_by_id :
  Forall (fun st => find_step (id st) = Some st) WALKTHROUGH_STEPS.
Proof. repeat (constructor; [vm_compute; reflexivity|]). constructor. Qed.

(** X5. Lookup by id is exact: an id is found only if a step of the catalog has
    it, and every step of the catalog is found by its own id, so no two
    steps share one. *)
Theorem find_step_exact (sid : JS.str) :
  match find_step sid with
  | Some st => st ∈ WALKTHROUGH_STEPS /\ id st = sid
  | None => forall st, st ∈ WALKTHROUGH_STEPS -> id st <> sid
  end /\
  (forall st, st ∈ WALKTHROUGH_STEPS -> find_step (id st) = Some st) /\
  NoDup (map id WALKTHROUGH_STEPS).
Proof.
  split; [|split].
  - destruct (find_step sid) as [st|] eqn:E.
    + split; [|now apply find_step_id].
      apply list_elem_of_In. unfold find_step in E. now apply find_some in E.
    + intros st Hst Hid. unfold find_step in E.
      apply list_elem_of_In in Hst.
      pose proof (find_none _ _ E st Hst) as Hno. cbn beta in Hno.
      apply eqb_eq in Hid. congruence.
  - intros st Hst. exact (proj1 (Forall_forall _ _) catalog_found_by_id st Hst).
  - apply (bool_decide_unpack _). vm_compute. exact I.
Qed.

(** X6. The command a card displays is the command line the runner logs for the
    step's arguments -- followed, for a step that asks for input, by a
    stand-in for the text. *)
Theorem displayed_command_is_the_command_run :
  Forall (fun st =>
            match requiresInput st with
            | None => command st = displayCmd (template st)
            | Some _ => exists stand_in, command st = displayCmd (template st ++ [stand_in])
            end) WALKTHROUGH_STEPS.
Proof.
  repeat (constructor;
          [first [ vm_compute; reflexivity
                 | exists (js "your message"); vm_compute; reflexivity
                 | exists (js "<url>"); vm_compute; reflexivity ]|]).
  constructor.
Qed.

(** ** The quick actions *)

Lemma runner_summary (h : Answers) (args : loc) (w : World) :
  exists result appended,
    run h (runGitCommand args) w = (result, emit_all appended w) /\
    succeeded result = git_succeeds h w (default [] (arrays w !! args)) /\
    filter is_spawn appended = git_spawn w (default [] (arrays w !! args)).
Proof.
  pose proof (run_runGitCommand_cases h args w) as H. cbn zeta in H. rewrite H.
  unfold git_succeeds, git_spawn.
  destruct (workspaceFolders w) as [[|cwd others]|].
  - do 2 eexists. split; [reflexivity|]. split; [|vm_compute]; reflexivity.
  - rewrite clean_iff_no_error. destruct (rejects _).
    + do 2 eexists. split; [reflexivity|]. split; [|vm_compute]; reflexivity.
    + destruct (error (execFile_reply (failure h) (process h)));
        do 2 eexists; (split; [reflexivity|]); (split; [|vm_compute]; reflexivity).
  - do 2 eexists. split; [reflexivity|]. split; [|vm_compute]; reflexivity.
Qed.

(** A quick action of the common form, run to its end. *)
Lemma run_quick_action_full (arguments : list JS.str) (text : JS.str)
    (h : Answers) (d : Desk) :
  exists appended,
    run_script h
      (NewArray arguments (fun args =>
       Inner (runGitCommand args) (fun result =>
       if success result then Notify (Information text) Done else Done))) d
    = {| inside := emit_all appended
                     (with_arrays (arrays (inside d) ++ [arguments]) (inside d));
         notices :=
           notices d ++
           (if git_succeeds h (inside d) arguments then [Information text] else []) |} /\
    filter is_spawn appended = git_spawn (inside d) arguments.
Proof.
  cbn [run_script inside notices].
  set (w1 := with_arrays (arrays (inside d) ++ [arguments]) (inside d)).
  destruct (runner_summary h (length (arrays (inside d))) w1)
    as (result & appended & -> & Hok & Hspawn).
  assert (Hlook : arrays w1 !! length (arrays (inside d)) = Some arguments).
  { subst w1. cbn. apply list_lookup_middle. reflexivity. }
  rewrite Hlook in Hok, Hspawn.
  change (default [] (Some arguments)) with arguments in Hok, Hspawn.
  change (git_succeeds h w1 arguments) with (git_succeeds h (inside d) arguments) in Hok.
  exists appended. split; [|exact Hspawn]. rewrite <- Hok.
  destruct result as [r|]; cbn [succeeded].
  - destruct (success r); cbn; [reflexivity|now rewrite app_nil_r].
  - now rewrite app_nil_r.
Qed.

Lemma run_quick_action (arguments : list JS.str) (text : JS.str) :
  announces
    (NewArray arguments (fun args =>
     Inner (runGitCommand args) (fun result =>
     if success result then Notify (Information text) Done else Done)))
    arguments text.
Proof.
  intros h d after. subst after.
  destruct (run_quick_action_full arguments text h d) as (appended & -> & Hspawn).
  cbn [inside notices]. split; [reflexivity|]. split; [|reflexivity].
  rewrite (added_app (inside d) _ appended) by reflexivity. exact Hspawn.
Qed.

(** X7. Status, add, push and pull each hand git and their own fixed arguments,
    in a new array (the store is otherwise as before), to [execFile], once if
    a workspace folder is open, and show their information message exactly
    when a folder is open, [execFile] takes the call (no U+0000 in the folder
    path) and reports no error: git ended with status 0 and neither stream
    passed the buffer. *)
Theorem quick_actions_announce_success :
  announces gitHelper_status [js "status"]
    (js "Git status — check the Output panel for details.") /\
  announces gitHelper_add [js "add"; js "."] (js "All files staged successfully!") /\
  announces gitHelper_push [js "push"] (js "Pushed to remote successfully!") /\
  announces gitHelper_pull [js "pull"] (js "Pulled latest changes!").
Proof.
  repeat split; apply run_quick_action.
Qed.

(** X8. The quick commit with the box cancelled or left empty shows the warning
    and does nothing else: no array is made, nothing is logged or spawned. *)
Theorem quick_commit_cancelled (h : Answers) (d : Desk) :
  typed h = None \/ typed h = Some [] ->
  run_script h gitHelper_commit d =
    {| inside := emit (EShowInputBox (js "Enter your commit message")
                         (js "e.g., Fix login button alignment")) (inside d);
       notices := notices d ++ [Warning (js "Commit cancelled — no message provided.")] |}.
Proof.
  intros [H | H]; unfold gitHelper_commit; cbn; rewrite H; reflexivity.
Qed.

Lemma quick_commit_cancelled_witness :
  run_script (sample_answers (Some []) NotStarted) gitHelper_commit
    {| inside := sample_world; notices := [] |} =
    {| inside := emit (EShowInputBox (js "Enter your commit message")
                         (js "e.g., Fix login button alignment")) sample_world;
       notices := [] ++ [Warning (js "Commit cancelled — no message provided.")] |}.
Proof.
  apply (quick_commit_cancelled (sample_answers (Some []) NotStarted)
           {| inside := sample_world; notices := [] |}).
  right. reflexivity.
Defined.

(** X9. The quick commit takes any message that is not empty -- blank ones
    included, unlike the walkthrough -- and hands git with [commit], [-m] and
    that message as one argument to [execFile] (once, if a folder is open);
    it confirms with the message in quotes exactly when a folder is open,
    [execFile] takes the call (no U+0000 in the message or the folder path)
    and reports no error: git ended with status 0 and neither stream passed
    the buffer. *)
Theorem quick_commit_runs_any_message (h : Answers) (d : Desk) (message : JS.str) :
  typed h = Some message ->
  message <> [] ->
  let after := run_script h gitHelper_commit d in
  arrays (inside after) = arrays (inside d) ++ [[js "commit"; js "-m"; message]] /\
  filter is_spawn (added (inside d) (inside after))
    = git_spawn (inside d) [js "commit"; js "-m"; message] /\
  notices after =
    notices d ++
    (if git_succeeds h (inside d) [js "commit"; js "-m"; message]
     then [Information (js "Committed: " ++ JS.dquote ++ message ++ JS.dquote)]
     else []).
Proof.
  intros Htyped Hne after. subst after.
  destruct message as [|c rest]; [congruence|].
  unfold gitHelper_commit. cbn [run_script]. cbn [run await answer request rejects].
  rewrite Htyped.
  set (ask := EShowInputBox (js "Enter your commit message")
                (js "e.g., Fix login button alignment")).
  destruct (run_quick_action_full [js "commit"; js "-m"; c :: rest]
              (js "Committed: " ++ JS.dquote ++ (c :: rest) ++ JS.dquote) h
              {| inside := emit ask (inside d); notices := notices d |})
    as (appended & -> & Hspawn).
  cbn [inside notices]. split; [reflexivity|]. split; [|reflexivity].
  rewrite (added_app (inside d) _ ([ask] ++ appended)).
  - rewrite filter_app. exact Hspawn.
  - cbn [effects emit emit_all with_arrays]. now rewrite <- app_assoc.
Qed.

Lemma quick_commit_runs_any_message_witness :
  notices (run_script (sample_answers (Some (js "  ")) (Exited 0 (js "") (js "")))
             gitHelper_commit {| inside := sample_world; notices := [] |})
  = [Information (js "Committed: " ++ JS.dquote ++ js "  " ++ JS.dquote)].
Proof.
  etransitivity.
  - refine (proj2 (proj2 (quick_commit_runs_any_message
              (sample_answers (Some (js "  ")) (Exited 0 (js "") (js "")))
              {| inside := sample_world; notices := [] |} (js "  ") _ _))).
    + reflexivity.
    + vm_compute. discriminate.
  - vm_compute. reflexivity.
Defined.

(** ** The script of the webview *)

Lemma eqb_refl (a : JS.str) : JS.eqb a a = true.
Proof. now apply eqb_eq. Qed.

Lemma eqb_neq (a b : JS.str) : a <> b -> JS.eqb a b = false.
Proof.
  intros H. destruct (JS.eqb a b) eqn:E; [|reflexivity]. now apply eqb_eq in E.
Qed.

Lemma alter_element_eq (i : JS.str) (f : Element -> Element) (d : Document) :
  alter_element i f d i = option_map f (d i).
Proof. unfold alter_element. now rewrite eqb_refl. Qed.

Lemma alter_element_ne (i j : JS.str) (f : Element -> Element) (d : Document) :
  j <> i -> alter_element i f d j = d j.
Proof. intros H. unfold alter_element. now rewrite eqb_neq. Qed.

(** The three kinds of element ids never collide, and within a kind the id
    determines the step. *)
Lemma element_ids_apart (a b : JS.str) :
  js "btn-" ++ a <> js "status-" ++ b /\
  js "btn-" ++ a <> js "output-" ++ b /\
  js "status-" ++ a <> js "output-" ++ b /\
  (a <> b -> js "btn-" ++ a <> js "btn-" ++ b) /\
  (a <> b -> js "status-" ++ a <> js "status-" ++ b) /\
  (a <> b -> js "output-" ++ a <> js "output-" ++ b).
Proof.
  repeat split; try (vm_compute; discriminate);
    intros Hab Heq; apply app_inv_head in Heq; contradiction.
Qed.

Lemma onMessage_elsewhere (m : Outbound) (d : Document) (i : JS.str) :
  i <> js "btn-" ++ target m ->
  i <> js "status-" ++ target m ->
  i <> js "output-" ++ target m ->
  onMessage m d i = d i.
Proof.
  intros Hb Hs Ho. destruct m as [sid status|sid ok text]; cbn in *.
  - now rewrite alter_element_ne.
  - now rewrite !alter_element_ne.
Qed.

(** X10. A message about one step leaves the button, the status line and the
    output area of every other step as they were. *)
Theorem message_reaches_only_its_card (m : Outbound) (d : Document) (other : JS.str) :
  other <> target m ->
  onMessage m d (js "btn-" ++ other) = d (js "btn-" ++ other) /\
  onMessage m d (js "status-" ++ other) = d (js "status-" ++ other) /\
  onMessage m d (js "output-" ++ other) = d (js "output-" ++ other).
Proof.
  intros Hne.
  destruct (element_ids_apart other (target m)) as (H1 & H2 & H3 & H4 & H5 & H6).
  destruct (element_ids_apart (target m) other) as (G1 & G2 & G3 & _).
  repeat split; apply onMessage_elsewhere; auto; congruence.
Qed.

Lemma message_reaches_only_its_card_witness :
  onMessage (ResultMessage (js "commit") true (js "done")) served_document
    (js "btn-" ++ js "push")
  = served_document (js "btn-" ++ js "push") /\
  served_document (js "btn-" ++ js "push")
  = Some {| className := js "run-button";
            textContent := JS.newline ++ repeat 32%N 16 ++ js "Run Step" ++
                           JS.newline ++ repeat 32%N 12;
            disabled := false; style_display := js "" |}.
Proof.
  split.
  - refine (proj1 (message_reaches_only_its_card
                     (ResultMessage (js "commit") true (js "done")) served_document
                     (js "push") _)).
    vm_compute. discriminate.
  - vm_compute. reflexivity.
Defined.

Example result_changes_its_own_card :
  let d := onMessage (ResultMessage (js "commit") false (js "nothing to commit"))
             (document (runStep (js "commit") served_page)) in
  d (js "btn-commit")
    = Some {| className := js "run-button"; textContent := js "Run Step";
              disabled := false; style_display := js "" |} /\
  d (js "status-commit")
    = Some {| className := js "step-status status-error";
              textContent := js "Error (see output below)";
              disabled := false; style_display := js "" |} /\
  d (js "output-commit")
    = Some {| className := js "step-output"; textContent := js "nothing to commit";
              disabled := false; style_display := js "block" |}.
Proof. vm_compute. repeat split; reflexivity. Qed.

Lemma deliver_status_then_result (v : view) (sid status text : JS.str) (ok : bool)
    (d : Document) (button : Element) :
  d (js "btn-" ++ sid) = Some button ->
  (deliver [(v, StatusMessage sid status); (v, ResultMessage sid ok text)] d
     (js "btn-" ++ sid)
   = Some {| className := className button; textContent := js "Run Step";
             disabled := false; style_display := style_display button |}) /\
  (deliver [(v, ResultMessage sid ok text)] d (js "btn-" ++ sid)
   = Some {| className := className button; textContent := js "Run Step";
             disabled := false; style_display := style_display button |}).
Proof.
  intros Hb.
  destruct (element_ids_apart sid sid) as (H1 & H2 & _).
  split; cbn; rewrite !alter_element_ne by assumption;
    rewrite alter_element_eq; rewrite ?alter_element_ne by assumption;
    rewrite Hb; reflexivity.
Qed.

(** X11. Round trip of a click on the button of a step of the catalog: the script
    disables the button and posts the step id.  Provided the input box and
    the process are answered and [execFile] takes the call (no U+0000 in the
    arguments handed over or in the folder path), the handler runs to its
    end, and once the messages it has posted have arrived -- whatever git
    did and whether or not the input was cancelled -- the button is enabled
    again and reads ["Run Step"]. *)
Theorem click_comes_back (h : Answers) (sid : JS.str) (st : WalkthroughStep)
    (w : World) (v : view) (p : Page) (button : Element) :
  find_step sid = Some st ->
  _view w = Some v ->
  document p (js "btn-" ++ sid) = Some button ->
  (forall cwd others,
     workspaceFolders w = Some (cwd :: others) -> accepted (handed h st w) cwd) ->
  let clicked := runStep sid p in
  let m := {| type := js "runStep"; stepId := sid |} in
  let answered :=
    deliver (posted (added w (snd (run h (_handleMessage m) w)))) (document clicked) in
  last (outbox clicked) = Some m /\
  document clicked (js "btn-" ++ sid)
    = Some {| className := className button; textContent := js "Running...";
              disabled := true; style_display := style_display button |} /\
  fst (run h (_handleMessage m) w) = Some tt /\
  answered (js "btn-" ++ sid)
    = Some {| className := className button; textContent := js "Run Step";
              disabled := false; style_display := style_display button |}.
Proof.
  intros Hfind Hv Hb Hok clicked m answered.
  assert (Hclicked : document clicked (js "btn-" ++ sid)
    = Some {| className := className button; textContent := js "Running...";
              disabled := true; style_display := style_display button |}).
  { subst clicked. cbn. rewrite alter_element_eq, Hb. reflexivity. }
  split; [apply last_snoc|]. split; [exact Hclicked|].
  pose proof (handler_returns h m st w eq_refl Hfind Hok) as Hret.
  split; [exact Hret|].
  subst answered.
  pose proof (handler_posts h m st w v eq_refl Hfind Hv) as Hposts.
  rewrite Hret in Hposts. destruct Hposts as (result & [-> | ->]).
  - exact (proj1 (deliver_status_then_result v sid (js "running") (output result)
                    (success result) (document clicked) _ Hclicked)).
  - exact (proj2 (deliver_status_then_result v sid (js "running") (output result)
                    (success result) (document clicked) _ Hclicked)).
Qed.

Lemma click_comes_back_witness :
  fst (run (sample_answers (Some (js "fix bug")) (Exited 1 (js "") (js "nothing to commit")))
         (_handleMessage {| type := js "runStep"; stepId := js "commit" |})
         sample_world) = Some tt /\
  deliver
    (posted (added sample_world
       (snd (run (sample_answers (Some (js "fix bug")) (Exited 1 (js "") (js "nothing to commit")))
               (_handleMessage {| type := js "runStep"; stepId := js "commit" |})
               sample_world))))
    (document (runStep (js "commit") served_page))
    (js "btn-" ++ js "commit")
  = Some {| className := js "run-button"; textContent := js "Run Step";
            disabled := false; style_display := js "" |}.
Proof.
  refine (proj2 (proj2 (click_comes_back
            (sample_answers (Some (js "fix bug")) (Exited 1 (js "") (js "nothing to commit")))
            (js "commit") commit_step sample_world 0 served_page
            {| className := js "run-button";
               textContent := JS.newline ++ repeat 32%N 16 ++ js "Run Step" ++
                              JS.newline ++ repeat 32%N 12;
               disabled := false; style_display := js "" |} _ _ _ _))).
  - vm_compute. reflexivity.
  - reflexivity.
  - vm_compute. reflexivity.
  - intros cwd others H. vm_compute in H. injection H as <- <-.
    vm_compute. reflexivity.
Defined.

Example nul_keeps_the_button_disabled :
  deliver
    (posted (added sample_world
       (snd (run (sample_answers (Some (js "fix" ++ [0%N] ++ js "bug"))
                    (Exited 0 (js "") (js "")))
               (_handleMessage (click "commit")) sample_world))))
    (document (runStep (js "commit") served_page))
    (js "btn-commit")
  = Some {| className := js "run-button"; textContent := js "Running...";
            disabled := true; style_display := js "" |}.
Proof. vm_compute. reflexivity. Qed.

(** ** Resolved arguments under interleaving *)

Lemma scoped_weaken (l : loc) {A : Type} (b b' : bool) (p : Prog A) :
  scoped l b p -> (b = true -> b' = true) -> scoped l b' p.
Proof.
  intros Hp. revert b'.
  induction Hp as [b a|b X c k Hc _ IH|b k _ IH|s k Hs Hk _|b q ph k _ IH|b xs cwd k Hxs _ IH];
    intros b' Hb.
  - apply scoped_Ret.
  - apply scoped_passive; [exact Hc|]. intros x. now apply IH.
  - apply scoped_read. intros xs Hxs. now apply IH.
  - rewrite (Hb eq_refl). now apply scoped_push.
  - apply scoped_input. intros x. now apply IH.
  - apply scoped_exec; [exact Hxs|]. intros x. now apply IH.
Qed.

Lemma scoped_bind (l : loc) {A B : Type} (b : bool) (m : Prog A) (f : A -> Prog B) :
  scoped l b m -> (forall a, scoped l false (f a)) -> scoped l b (bind m f).
Proof.
  intros Hm Hf.
  induction Hm as [b a|b X c k Hc _ IH|b k _ IH|s k Hs _ IH|b q ph k _ IH|b xs cwd k Hxs _ IH];
    cbn.
  - apply (scoped_weaken l false); [apply Hf|discriminate].
  - apply scoped_passive; [exact Hc|]. exact IH.
  - apply scoped_read. exact IH.
  - apply scoped_push; [exact Hs|]. exact IH.
  - apply scoped_input. exact IH.
  - apply scoped_exec; [exact Hxs|]. exact IH.
Qed.

Lemma scoped_call (l : loc) (b : bool) {X : Type} (c : Call X) :
  passive c -> scoped l b (call c).
Proof.
  intros Hc. apply scoped_passive; [exact Hc|]. intros x. apply scoped_Ret.
Qed.

Lemma scoped_post (l : loc) (b : bool) (m : Outbound) : scoped l b (post m).
Proof.
  unfold post. apply scoped_bind; [now apply scoped_call|].
  intros [v|]; [now apply scoped_call|apply scoped_Ret].
Qed.

Lemma scoped_on_exit (l : loc) (b : bool) (reply : ExecReply) :
  scoped l b (on_exit reply).
Proof.
  unfold on_exit. destruct (error reply);
    repeat (apply scoped_bind; [now apply scoped_call|intros _]);
    apply scoped_Ret.
Qed.

(** The runner reads the array it is given, twice, and spawns git on what
    the second read returns. *)
Lemma scoped_runGitCommand (l : loc) (b : bool) : scoped l b (runGitCommand l).
Proof.
  unfold runGitCommand. cbn.
  apply scoped_passive; [exact I|]. intros [[|cwd others]|].
  - repeat (apply scoped_passive; [exact I|intros _]). apply scoped_Ret.
  - apply scoped_read. intros shown _.
    repeat (apply scoped_passive; [exact I|intros _]).
    apply scoped_read. intros passed Hpassed.
    apply scoped_exec; [exact Hpassed|]. intros reply. apply scoped_on_exit.
  - repeat (apply scoped_passive; [exact I|intros _]). apply scoped_Ret.
Qed.

Lemma scoped_run_step (l : loc) (b : bool) (st : WalkthroughStep) :
  scoped l b (run_step st l).
Proof.
  unfold run_step, _sendStatusToWebview, _sendResultToWebview.
  apply scoped_bind; [apply scoped_post|intros _].
  apply scoped_bind; [apply scoped_runGitCommand|intros result].
  apply scoped_post.
Qed.

(** The handler either returns at once or copies the arguments of a step of
    the catalog and goes on working on the copy. *)
Lemma handler_scoped (m : Message) :
  _handleMessage m = Ret tt \/
  exists st k,
    st ∈ WALKTHROUGH_STEPS /\
    _handleMessage m = Do (ArraySpread (args st)) k /\
    forall l, scoped l (asks_input st) (k l).
Proof.
  unfold _handleMessage.
  destruct (negb (JS.eqb (type m) (js "runStep"))); [now left|].
  destruct (find_step (stepId m)) as [st|] eqn:Hfind; [|now left].
  right. exists st. eexists. split; [|split; [reflexivity|]].
  - apply list_elem_of_In. unfold find_step in Hfind. now apply find_some in Hfind.
  - intros l. unfold asks_input. cbn.
    destruct (requiresInput st) as [request|]; [|apply scoped_run_step].
    apply scoped_input. intros [text|]; cbn; [|apply scoped_post].
    destruct (JS.eqb (JS.trim text) (js "")) eqn:E; [apply scoped_post|].
    apply scoped_push.
    + intros Hempty. apply eqb_empty in Hempty. congruence.
    + intros _. apply scoped_run_step.
Qed.

Lemma perform_passive {X : Type} (c : Call X) (w : World) :
  passive c ->
  arrays (snd (perform c w)) = arrays w /\
  (Forall spawn_shaped (effects w) -> Forall spawn_shaped (effects (snd (perform c w)))).
Proof.
  intros Hc. destruct c; cbn in *; try contradiction; split; try reflexivity;
    try (intros H; exact H);
    intros H; apply Forall_app; split; try exact H; repeat constructor.
Qed.

(** Running a scoped program up to its next suspension. *)
Lemma advance_scoped (l : loc) (b : bool) (p : Prog unit) (w : World) :
  scoped l b p ->
  Forall resolved_shape (arrays w) ->
  Forall spawn_shaped (effects w) ->
  owner_ok (arrays w) (l, b) ->
  Forall resolved_shape (arrays (fst (advance p w))) /\
  Forall spawn_shaped (effects (fst (advance p w))) /\
  length (arrays (fst (advance p w))) = length (arrays w) /\
  (forall l', l' <> l -> arrays (fst (advance p w)) !! l' = arrays w !! l') /\
  match snd (advance p w) with
  | None => True
  | Some t =>
      exists b', scoped_task (l, b') t /\
                 (b' = true -> b = true /\ arrays (fst (advance p w)) !! l = arrays w !! l)
  end.
Proof.
  intros Hp. revert w.
  induction Hp as [b a|b X c k Hc _ IH|b k _ IH|s k Hs _ IH|b q ph k Hk _|b xs cwd k Hxs Hk _];
    intros w Hstore Htrace [Hl Hown]; cbn [fst snd] in Hl, Hown.
  - cbn. repeat split; auto.
  - cbn [advance]. destruct (perform_passive c w Hc) as [Harr Htr].
    destruct (perform c w) as [x w1]. cbn [snd] in Harr, Htr.
    destruct (IH x w1) as (H1 & H2 & H3 & H4 & H5).
    + now rewrite Harr.
    + now apply Htr.
    + split; cbn [fst snd]; rewrite Harr; assumption.
    + rewrite Harr in *. repeat split; assumption.
  - cbn [advance perform].
    destruct (lookup_lt_is_Some_2 (arrays w) l Hl) as [xs Hxs].
    replace (default [] (arrays w !! l)) with xs by (now rewrite Hxs).
    apply (IH xs); [|assumption|assumption|split; assumption].
    exact (Forall_lookup_1 _ _ _ _ Hstore Hxs).
  - cbn [advance perform].
    destruct (Hown eq_refl) as (st & Hst & Hreq & Hlook).
    set (w1 := with_arrays (alter (fun xs => xs ++ [s]) l (arrays w)) w).
    assert (Hstore1 : Forall resolved_shape (arrays w1)).
    { subst w1. cbn. apply Forall_alter; [exact Hstore|].
      intros xs Hxs. rewrite Hlook in Hxs. injection Hxs as <-.
      exists st. split; [exact Hst|]. right. exists s. auto. }
    destruct (IH tt w1) as (H1 & H2 & H3 & H4 & H5).
    + exact Hstore1.
    + exact Htrace.
    + split; cbn; [now rewrite length_alter|discriminate].
    + repeat split; try assumption.
      * rewrite H3. subst w1. cbn. apply length_alter.
      * intros l' Hne. rewrite (H4 l' Hne). subst w1. cbn.
        now apply list_lookup_alter_ne.
      * destruct (snd (advance (k tt) w1)) as [t|]; [|exact I].
        destruct H5 as (b' & Ht & Hb'). exists false. split.
        -- destruct b'; [destruct (Hb' eq_refl); discriminate|exact Ht].
        -- discriminate.
  - cbn. repeat split; auto.
    + apply Forall_app. split; [exact Htrace|repeat constructor].
    + exists b. split; [exact Hk|]. auto.
  - cbn [advance]. destruct (rejects _); cbn; repeat split; auto.
    + apply Forall_app. split; [exact Htrace|]. repeat constructor. exact Hxs.
    + apply Forall_app. split; [exact Htrace|]. repeat constructor. exact Hxs.
    + exists b. split; [exact Hk|]. auto.
Qed.

Lemma resume_scoped (o : loc * bool) (t : Task) (r : Response) (p : Prog unit) :
  scoped_task o t -> resume t r = Some p -> scoped (fst o) (snd o) p.
Proof.
  destruct t as [X a k]. cbn. intros Hk.
  destruct a, r; intros [= <-]; apply Hk.
Qed.

(** Starting (or resuming) a scoped program next to suspended invocations
    that work on other arrays. *)
Lemma start_shaped (p : Prog unit) (rest : list Task) (w : World)
    (owners : list (loc * bool)) (l : loc) (b : bool) :
  scoped l b p ->
  Forall resolved_shape (arrays w) ->
  Forall spawn_shaped (effects w) ->
  owner_ok (arrays w) (l, b) ->
  Forall2 (fun t o => scoped_task o t) rest owners ->
  NoDup (l :: owners.*1) ->
  Forall (owner_ok (arrays w)) owners ->
  exists owners', shaped (start p rest w) owners'.
Proof.
  intros Hp Hstore Htrace Hown Htasks Hdup Howners.
  destruct (advance_scoped l b p w Hp Hstore Htrace Hown) as (H1 & H2 & H3 & H4 & H5).
  apply NoDup_cons in Hdup as [Hfresh Hdup].
  assert (Hkept : Forall (owner_ok (arrays (fst (advance p w)))) owners).
  { apply Forall_forall. intros [l' b'] Ho.
    pose proof (proj1 (Forall_forall _ _) Howners _ Ho) as [Hlt Hc].
    split; cbn [fst snd] in *; [now rewrite H3|].
    intros Hb'. destruct (Hc Hb') as (st & Hst & Hreq & Hlook).
    exists st. repeat split; try assumption. rewrite H4; [exact Hlook|].
    intros ->. apply Hfresh. apply list_elem_of_fmap. exists (l, b'). auto. }
  unfold start. destruct (advance p w) as [w' [t|]]; cbn [fst snd] in *.
  - destruct H5 as (b' & Ht & Hb').
    exists (owners ++ [(l, b')]). split; cbn [world pending option_list].
    + exact H1.
    + exact H2.
    + apply Forall2_app; [exact Htasks|]. repeat constructor. exact Ht.
    + rewrite fmap_app. apply NoDup_app. split; [exact Hdup|]. split.
      * intros x Hx Hin. cbn in Hin. apply list_elem_of_singleton in Hin. now subst.
      * cbn. apply NoDup_singleton.
    + apply Forall_app. split; [exact Hkept|]. repeat constructor; cbn [fst snd].
      * destruct Hown as [Hlt _]. cbn in Hlt. now rewrite H3.
      * intros ->. destruct (Hb' eq_refl) as [-> Hsame].
        destruct Hown as [_ Hc]. destruct (Hc eq_refl) as (st & Hst & Hreq & Hlook).
        exists st. repeat split; try assumption. cbn in Hlook. congruence.
  - exists owners. split; cbn [world pending option_list].
    + exact H1.
    + exact H2.
    + now rewrite app_nil_r.
    + exact Hdup.
    + exact Hkept.
Qed.

Lemma catalog_array (st : WalkthroughStep) (store : Arrays) :
  st ∈ WALKTHROUGH_STEPS ->
  take (length initial_arrays) store = initial_arrays ->
  store !! args st = Some (template st).
Proof.
  intros Hst Hcat.
  pose proof (proj1 (Forall_forall _ _) catalog_references st Hst) as Hlt.
  cbn beta in Hlt.
  rewrite <- (lookup_take_lt _ (length initial_arrays)) by exact Hlt.
  rewrite Hcat. unfold template.
  destruct (initial_arrays !! args st) as [xs|] eqn:E; [reflexivity|].
  apply lookup_ge_None in E. lia.
Qed.

Lemma host_step_shaped (s : Loop) (owners : list (loc * bool)) (a : HostAction) :
  loop_invariant s -> shaped s owners -> exists owners', shaped (host_step s a) owners'.
Proof.
  intros Hinv [Hstore Htrace Htasks Hdup Howners].
  destruct a as [v|v m|i r|f]; cbn [host_step].
  - exists owners. split; cbn; try assumption. now rewrite app_nil_r.
  - destruct (existsb (Nat.eqb v) (handlers (world s)));
      [|exists owners; split; assumption].
    destruct (handler_scoped m) as [-> | (st & k & Hst & -> & Hk)].
    + exists owners. split; cbn; try assumption. now rewrite app_nil_r.
    + pose proof (catalog_array st _ Hst (catalog_intact _ Hinv)) as Hlook.
      set (l := length (arrays (world s))).
      set (w1 := with_arrays (arrays (world s) ++ [template st]) (world s)).
      assert (Hstart : start (Do (ArraySpread (args st)) k) (pending s) (world s)
                       = start (k l) (pending s) w1).
      { unfold start. cbn [advance perform]. rewrite Hlook. reflexivity. }
      rewrite Hstart.
      apply (start_shaped _ _ _ owners l (asks_input st)); try assumption.
      * apply Hk.
      * subst w1. cbn. apply Forall_app. split; [exact Hstore|].
        repeat constructor. exists st. auto.
      * split; cbn [fst snd]; subst w1 l; cbn.
        -- rewrite length_app. cbn. lia.
        -- intros Hb. exists st. repeat split; try assumption.
           ++ unfold asks_input in Hb. destruct (requiresInput st); congruence.
           ++ apply list_lookup_middle. reflexivity.
      * apply NoDup_cons. split; [|exact Hdup].
        intros Hin. apply list_elem_of_fmap in Hin as ([l' b'] & Heq & Ho).
        pose proof (proj1 (Forall_forall _ _) Howners _ Ho) as [Hlt _].
        cbn in Heq, Hlt. subst l. lia.
      * apply Forall_forall. intros [l' b'] Ho.
        pose proof (proj1 (Forall_forall _ _) Howners _ Ho) as [Hlt Hc].
        cbn [fst snd] in *. split; cbn [fst snd]; subst w1; cbn.
        -- rewrite length_app. lia.
        -- intros Hb. destruct (Hc Hb) as (st' & Hst' & Hreq & Hl').
           exists st'. repeat split; try assumption.
           rewrite lookup_app_l by exact Hlt. exact Hl'.
  - destruct (pending s !! i) as [t|] eqn:Ht; [|exists owners; split; assumption].
    destruct (resume t r) as [p|] eqn:Hp; [|exists owners; split; assumption].
    destruct (Forall2_lookup_l _ _ _ _ _ Htasks Ht) as ([l b] & Ho & Hscoped).
    pose proof (resume_scoped _ _ _ _ Hscoped Hp) as Hp'. cbn [fst snd] in Hp'.
    pose proof (delete_Permutation _ _ _ Ho) as Hperm.
    assert (Hdup' : NoDup (l :: (delete i owners).*1)).
    { change (l :: (delete i owners).*1) with (((l, b) :: delete i owners).*1).
      now rewrite <- Hperm. }
    assert (Hall : Forall (owner_ok (arrays (world s))) ((l, b) :: delete i owners)).
    { now rewrite <- Hperm. }
    apply Forall_cons in Hall as [Hown Hrest].
    apply (start_shaped _ _ _ (delete i owners) l b); try assumption.
    now apply Forall2_delete.
  - exists owners. split; assumption.
Qed.

Lemma activate_shaped (folders : option (list JS.str)) : shaped (activate folders) [].
Proof.
  split; cbn.
  - apply Forall_lookup. intros i xs Hi.
    assert (Hst : exists st, WALKTHROUGH_STEPS !! i = Some st /\ xs = template st).
    { do 9 (destruct i as [|i];
            [injection Hi as <-; eexists; split; [reflexivity|vm_compute; reflexivity]|]).
      discriminate. }
    destruct Hst as (st & Hst & ->). exists st. split; [|now left].
    now apply list_elem_of_lookup_2 in Hst.
  - repeat constructor.
  - constructor.
  - constructor.
  - constructor.
Qed.

Lemma host_run_shaped (s : Loop) (owners : list (loc * bool))
    (actions : list HostAction) :
  loop_invariant s -> shaped s owners ->
  exists owners', shaped (host_run s actions) owners'.
Proof.
  revert s owners. induction actions as [|a actions IH]; intros s owners Hinv Hs; cbn.
  - now exists owners.
  - destruct (host_step_shaped s owners a Hinv Hs) as (owners' & Hs').
    apply (IH _ owners'); [|exact Hs']. now apply host_step_invariant.
Qed.

(** X13. Whatever the host does after activation, in any interleaving, every
    process the walkthrough has spawned is git, run on the arguments of a
    step of the catalog followed by at most one text, which is not blank and
    only there if the step asks for input.  (Calls that [execFile] refuses
    are on the trace too, and have the same shape.) *)
Theorem only_git_on_resolved_arguments (folders : option (list JS.str))
    (actions : list HostAction) (file : JS.str) (arguments : list JS.str) (cwd : JS.str) :
  EExecFile file arguments cwd ∈ effects (world (host_run (activate folders) actions)) ->
  file = js "git" /\
  exists st, st ∈ WALKTHROUGH_STEPS /\
    (arguments = template st \/
     exists text, requiresInput st <> None /\ JS.trim text <> [] /\
                  arguments = template st ++ [text]).
Proof.
  intros Hin.
  destruct (host_run_shaped _ [] actions (activate_invariant folders)
              (activate_shaped folders)) as (owners & [_ Htrace _ _ _]).
  exact (proj1 (Forall_forall _ _) Htrace _ Hin).
Qed.

(** X14. Under the host actions of the walkthrough (views resolved, messages
    received, input boxes and processes answered, folders changed), in any
    interleaving, every array that the catalog and the message handler have
    created holds the arguments of a step of the catalog with at most one
    element appended: concurrent invocations of the handler never push onto
    each other's copies, nor twice onto their own.  (The arrays of the quick
    actions are no part of this store.) *)
Theorem store_holds_resolved_arguments (folders : option (list JS.str))
    (actions : list HostAction) :
  Forall resolved_shape (arrays (world (host_run (activate folders) actions))).
Proof.
  destruct (host_run_shaped _ [] actions (activate_invariant folders)
              (activate_shaped folders)) as (owners & [Hstore _ _ _ _]).
  exact Hstore.
Qed.

Lemma only_git_on_resolved_arguments_witness :
  js "git" = js "git" /\
  exists st, st ∈ WALKTHROUGH_STEPS /\
    ([js "commit"; js "-m"; js "fix bug"] = template st \/
     exists text, requiresInput st <> None /\ JS.trim text <> [] /\
                  [js "commit"; js "-m"; js "fix bug"] = template st ++ [text]).
Proof.
  apply (only_git_on_resolved_arguments (Some [js "/home/u/project"])
           [Resolve 7; Receive 7 (click "commit"); Respond 0 (Typed (Some (js "fix bug")))]
           (js "git") [js "commit"; js "-m"; js "fix bug"] (js "/home/u/project")).
  apply (list_elem_of_lookup_2 _ 7). vm_compute. reflexivity.
Defined.

(** ** The view that is posted to *)

Lemma aimed_bind (v : view) {A B : Type} (m : Prog A) (f : A -> Prog B) :
  aimed v m -> (forall a v', aimed v' (f a)) -> aimed v (bind m f).
Proof.
  intros Hm Hf.
  induction Hm as [u a|u k _ IH1 _ IH2|u m' k _ IH|u X c k Hc _ IH|u X a k _ IH]; cbn.
  - apply Hf.
  - apply aimed_GetView; [apply IH1|apply IH2].
  - apply aimed_PostMessage. intros x. apply IH.
  - apply aimed_Do; [exact Hc|]. intros x. apply IH.
  - apply aimed_Wait. intros x v'. apply IH.
Qed.

Lemma aimed_call (v : view) {X : Type} (c : Call X) :
  match c with
  | GetView | PostMessage _ _ | SetView _ => False
  | _ => True
  end -> aimed v (call c).
Proof. intros Hc. apply aimed_Do; [exact Hc|]. intros x. apply aimed_Ret. Qed.

Lemma aimed_post (v : view) (m : Outbound) : aimed v (post m).
Proof.
  unfold post. cbn. apply aimed_GetView.
  - apply aimed_PostMessage. intros x. apply aimed_Ret.
  - apply aimed_Ret.
Qed.

Lemma aimed_on_exit (v : view) (reply : ExecReply) : aimed v (on_exit reply).
Proof.
  unfold on_exit. destruct (error reply);
    repeat (apply aimed_bind; [now apply aimed_call|intros _ ?]);
    apply aimed_Ret.
Qed.

Lemma aimed_runGitCommand (v : view) (args : loc) : aimed v (runGitCommand args).
Proof.
  unfold runGitCommand. apply aimed_bind; [now apply aimed_call|].
  intros [[|cwd others]|] v'.
  - repeat (apply aimed_bind; [now apply aimed_call|intros _ ?]). apply aimed_Ret.
  - apply aimed_bind; [now apply aimed_call|intros shown ?].
    repeat (apply aimed_bind; [now apply aimed_call|intros _ ?]).
    apply aimed_bind; [now apply aimed_call|intros passed ?].
    apply aimed_bind; [|intros; apply aimed_on_exit].
    apply aimed_Wait. intros reply ?. apply aimed_Ret.
  - repeat (apply aimed_bind; [now apply aimed_call|intros _ ?]). apply aimed_Ret.
Qed.

Lemma aimed_run_step (v : view) (st : WalkthroughStep) (args : loc) :
  aimed v (run_step st args).
Proof.
  unfold run_step, _sendStatusToWebview, _sendResultToWebview.
  apply aimed_bind; [apply aimed_post|intros _ ?].
  apply aimed_bind; [apply aimed_runGitCommand|intros result ?].
  apply aimed_post.
Qed.

(** The handler posts through [this._view] only, read anew for each message
    it sends. *)
Lemma aimed_handleMessage (v : view) (m : Message) : aimed v (_handleMessage m).
Proof.
  unfold _handleMessage.
  destruct (negb (JS.eqb (type m) (js "runStep"))); [apply aimed_Ret|].
  destruct (find_step (stepId m)) as [st|]; [|apply aimed_Ret].
  apply aimed_Do; [exact I|]. intros copy. cbn.
  destruct (requiresInput st) as [request|]; [|apply aimed_run_step].
  apply aimed_Wait. intros [text|] v'; cbn; [|apply aimed_post].
  destruct (JS.eqb (JS.trim text) (js "")); [apply aimed_post|].
  apply aimed_Do; [exact I|]. intros _. apply aimed_run_step.
Qed.

Lemma perform_elsewhere {X : Type} (c : Call X) (w : World) :
  match c with
  | GetView | PostMessage _ _ | SetView _ => False
  | _ => True
  end ->
  _view (snd (perform c w)) = _view w /\
  exists es, effects (snd (perform c w)) = effects w ++ es /\ posted es = [].
Proof.
  intros Hc. destruct c; cbn in *; try contradiction; split; try reflexivity;
    first [ exists []; split; [now rewrite app_nil_r|reflexivity]
          | eexists; split; reflexivity ].
Qed.

Lemma advance_aimed (v : view) (p : Prog unit) (w : World) :
  aimed v p ->
  _view w = Some v \/ _view w = None ->
  _view (fst (advance p w)) = _view w /\
  Forall fair_task (option_list (snd (advance p w))) /\
  exists es,
    effects (fst (advance p w)) = effects w ++ es /\
    Forall (fun q => fst q = v) (posted es).
Proof.
  intros Hp. revert w.
  induction Hp as [u a|u k _ IH1 _ IH2|u m k _ IH|u X c k Hc _ IH|u X a k Hk _];
    intros w Hview.
  - cbn. repeat split; [constructor|]. exists []. split; [now rewrite app_nil_r|constructor].
  - cbn [advance perform]. destruct Hview as [Hv | Hv].
    + replace (k (_view w)) with (k (Some u)) by (now rewrite Hv).
      apply IH1. now left.
    + replace (k (_view w)) with (k None) by (now rewrite Hv).
      apply IH2. now right.
  - cbn [advance perform].
    destruct (IH tt (emit (EPostMessage u m) w) Hview) as (H1 & H2 & es & H3 & H4).
    split; [exact H1|]. split; [exact H2|].
    exists (EPostMessage u m :: es). split.
    + rewrite H3. cbn. now rewrite <- app_assoc.
    + cbn. constructor; [reflexivity|exact H4].
  - cbn [advance]. destruct (perform_elsewhere c w Hc) as (Hv & es1 & He1 & Hp1).
    destruct (perform c w) as [x w1]. cbn [snd] in Hv, He1.
    destruct (IH x w1) as (H1 & H2 & es & H3 & H4); [now rewrite Hv|].
    split; [congruence|]. split; [exact H2|].
    exists (es1 ++ es). split.
    + rewrite H3, He1. now rewrite app_assoc.
    + rewrite posted_app, Hp1. exact H4.
  - cbn [advance]. destruct (rejects a); cbn.
    + split; [reflexivity|]. split; [constructor|].
      exists [request a]. split; [reflexivity|]. destruct a; constructor.
    + split; [reflexivity|]. split; [repeat constructor; exact Hk|].
      exists [request a]. split; [reflexivity|]. destruct a; constructor.
Qed.

Lemma start_aimed (p : Prog unit) (rest : list Task) (w : World) :
  (forall v, aimed v p) ->
  Forall fair_task rest ->
  Forall fair_task (pending (start p rest w)) /\
  _view (world (start p rest w)) = _view w /\
  exists es,
    effects (world (start p rest w)) = effects w ++ es /\
    forall v, _view w = Some v -> Forall (fun q => fst q = v) (posted es).
Proof.
  intros Hp Hrest.
  assert (H : _view (fst (advance p w)) = _view w /\
              Forall fair_task (option_list (snd (advance p w))) /\
              exists es, effects (fst (advance p w)) = effects w ++ es /\
                forall v, _view w = Some v -> Forall (fun q => fst q = v) (posted es)).
  { destruct (_view w) as [v|] eqn:Hv.
    - destruct (advance_aimed v p w (Hp v) (or_introl Hv)) as (H1 & H2 & es & H3 & H4).
      rewrite Hv in H1. repeat split; try assumption.
      exists es. split; [exact H3|]. now intros ? [= <-].
    - destruct (advance_aimed 0 p w (Hp 0) (or_intror Hv)) as (H1 & H2 & es & H3 & H4).
      rewrite Hv in H1. repeat split; try assumption.
      exists es. split; [exact H3|]. discriminate. }
  destruct H as (H1 & H2 & H3).
  unfold start. destruct (advance p w) as [w' t]. cbn [fst snd world pending] in *.
  split; [|split; assumption]. apply Forall_app. split; assumption.
Qed.

Lemma resume_fair (t : Task) (r : Response) (p : Prog unit) :
  fair_task t -> resume t r = Some p -> forall v, aimed v p.
Proof.
  destruct t as [X a k]. cbn. intros Hk.
  destruct a, r; intros [= <-]; apply Hk.
Qed.

(** A step of the host other than opening a panel. *)
Lemma host_step_aimed (s : Loop) (a : HostAction) :
  is_resolve a = false ->
  Forall fair_task (pending s) ->
  Forall fair_task (pending (host_step s a)) /\
  _view (world (host_step s a)) = _view (world s) /\
  exists es,
    effects (world (host_step s a)) = effects (world s) ++ es /\
    forall v, _view (world s) = Some v -> Forall (fun q => fst q = v) (posted es).
Proof.
  intros Ha Hfair.
  assert (Hsame : Forall fair_task (pending s) /\ _view (world s) = _view (world s) /\
            exists es, effects (world s) = effects (world s) ++ es /\
              forall v, _view (world s) = Some v -> Forall (fun q => fst q = v) (posted es)).
  { repeat split; [exact Hfair|]. exists []. split; [now rewrite app_nil_r|constructor]. }
  destruct a as [v|v m|i r|f]; cbn [host_step]; [discriminate| | |exact Hsame].
  - destruct (existsb (Nat.eqb v) (handlers (world s))); [|exact Hsame].
    apply start_aimed; [|exact Hfair]. intros u. apply aimed_handleMessage.
  - destruct (pending s !! i) as [t|] eqn:Ht; [|exact Hsame].
    destruct (resume t r) as [p|] eqn:Hp; [|exact Hsame].
    apply start_aimed; [|now apply Forall_delete].
    apply (resume_fair t r); [|exact Hp].
    exact (Forall_lookup_1 _ _ _ _ Hfair Ht).
Qed.

Lemma host_step_fair (s : Loop) (a : HostAction) :
  Forall fair_task (pending s) -> Forall fair_task (pending (host_step s a)).
Proof.
  intros Hfair. destruct (is_resolve a) eqn:Ha.
  - destruct a; try discriminate. cbn. now rewrite app_nil_r.
  - now apply host_step_aimed.
Qed.

Lemma host_run_fair (s : Loop) (actions : list HostAction) :
  Forall fair_task (pending s) -> Forall fair_task (pending (host_run s actions)).
Proof.
  revert s. induction actions as [|a actions IH]; intros s Hs; cbn; [exact Hs|].
  apply IH, host_step_fair, Hs.
Qed.

Lemma host_run_aimed (s : Loop) (actions : list HostAction) (v : view) :
  forallb (fun a => negb (is_resolve a)) actions = true ->
  _view (world s) = Some v ->
  Forall fair_task (pending s) ->
  _view (world (host_run s actions)) = Some v /\
  exists es,
    effects (world (host_run s actions)) = effects (world s) ++ es /\
    Forall (fun q => fst q = v) (posted es).
Proof.
  revert s. induction actions as [|a actions IH]; intros s Hno Hv Hfair.
  - split; [exact Hv|]. exists []. split; [cbn; now rewrite app_nil_r|constructor].
  - change (host_run s (a :: actions)) with (host_run (host_step s a) actions).
    cbn in Hno. apply andb_prop in Hno as [Ha Hno]. apply negb_true_iff in Ha.
    destruct (host_step_aimed s a Ha Hfair) as (H1 & H2 & es1 & H3 & H4).
    destruct (IH (host_step s a) Hno) as (H5 & es2 & H6 & H7); [congruence|exact H1|].
    split; [exact H5|]. exists (es1 ++ es2). split.
    + rewrite H6, H3. now rewrite app_assoc.
    + rewrite posted_app. apply Forall_app. split; [now apply H4|exact H7].
Qed.

(** X15. The handler posts through the provider's current view, not through
    the webview that sent the message: once the host has resolved a view,
    every status and result posted until it resolves another one goes to
    that view -- also those of invocations that were started from an earlier
    view and were still suspended. *)
Theorem posts_go_to_the_view_resolved_last (folders : option (list JS.str))
    (before after : list HostAction) (v : view) :
  forallb (fun a => negb (is_resolve a)) after = true ->
  let opened := host_run (activate folders) (before ++ [Resolve v]) in
  let later := host_run opened after in
  _view (world later) = Some v /\
  exists es,
    effects (world later) = effects (world opened) ++ es /\
    forall v' m, (v', m) ∈ posted es -> v' = v.
Proof.
  intros Hno opened later.
  assert (Hfair : Forall fair_task (pending opened)).
  { apply host_run_fair. constructor. }
  assert (Hv : _view (world opened) = Some v).
  { subst opened. unfold host_run. rewrite fold_left_app. reflexivity. }
  destruct (host_run_aimed opened after v Hno Hv Hfair) as (H1 & es & H2 & H3).
  split; [exact H1|]. exists es. split; [exact H2|].
  intros v' m Hin. exact (proj1 (Forall_forall _ _) H3 _ Hin).
Qed.

Lemma posts_go_to_the_view_resolved_last_witness :
  _view (world (host_run
                  (host_run (activate (Some [js "/home/u/project"]))
                     ([Resolve 1; Receive 1 (click "commit")] ++ [Resolve 2]))
                  [Respond 0 (Typed None)])) = Some 2 /\
  exists es,
    effects (world (host_run
                      (host_run (activate (Some [js "/home/u/project"]))
                         ([Resolve 1; Receive 1 (click "commit")] ++ [Resolve 2]))
                      [Respond 0 (Typed None)]))
    = effects (world (host_run (activate (Some [js "/home/u/project"]))
                        ([Resolve 1; Receive 1 (click "commit")] ++ [Resolve 2]))) ++ es /\
    forall v' m, (v', m) ∈ posted es -> v' = 2.
Proof.
  apply (posts_go_to_the_view_resolved_last (Some [js "/home/u/project"])
           [Resolve 1; Receive 1 (click "commit")] [Respond 0 (Typed None)] 2).
  reflexivity.
Defined.

Example result_goes_to_the_new_view :
  posted (effects (world (host_run (activate None)
            [Resolve 1; Receive 1 (click "commit"); Resolve 2; Respond 0 (Typed None)])))
  = [(2, ResultMessage (js "commit") false cancelled_message)].
Proof. vm_compute. reflexivity. Qed.

Lemma delivered_message_finds_view_witness :
  is_Some (_view (world (host_run (activate None) [Resolve 4]))).
Proof.
  apply (delivered_message_finds_view None [Resolve 4] 4). reflexivity.
Defined.
